(** * Signing, simulation and submission core of mev-arbitrage-bot

    A shallow embedding of [src/crypto/der.rs], [src/signer.rs],
    [src/sim.rs], [src/executor.rs] and [src/autosubmit.rs].  Bytes are
    [list Byte.byte]; 256-bit and 128-bit machine integers are [Z] with their
    bounds written out; asynchronous network calls are answered by explicit
    environment records, and effects are recorded in traces. *)

From Stdlib Require Import ZArith String Ascii List Bool Lia Permutation Sorted SpecFloat.
Import ListNotations.
Open Scope list_scope.
Open Scope Z_scope.

(* ================================================================== *)
(** ** Bytes and big-endian integers *)

Definition byte : Type := Byte.byte.

Definition byte_to_Z (b : byte) : Z := Z.of_N (Byte.to_N b).
Definition Z_to_byte (z : Z) : byte :=
  match Byte.of_N (Z.to_N (z mod 256)) with Some b => b | None => Byte.x00 end.

(** [U256::from_big_endian] on a byte slice. *)
Definition be_to_Z (bs : list byte) : Z :=
  fold_left (fun acc b => acc * 256 + byte_to_Z b) bs 0.

(** The [n]-byte big-endian encoding of [z mod 256^n]. *)
Fixpoint Z_to_be (n : nat) (z : Z) : list byte :=
  match n with
  | O => []
  | S n' => Z_to_be n' (z / 256) ++ [Z_to_byte z]
  end.

(** [slice[a..b]]. *)
Definition slice {A} (a b : nat) (l : list A) : list A := firstn (b - a) (skipn a l).

Fixpoint list_eqb {A} (eqb : A -> A -> bool) (l1 l2 : list A) : bool :=
  match l1, l2 with
  | [], [] => true
  | x :: l1', y :: l2' => eqb x y && list_eqb eqb l1' l2'
  | _, _ => false
  end.

Definition bytes_eqb : list byte -> list byte -> bool := list_eqb Byte.eqb.

(* ================================================================== *)
(** ** Keccak-256 ([ethers_core::utils::keccak256]) *)

Module Keccak.

Definition mask64 : Z := Z.ones 64.

Definition rotl64 (x : Z) (n : Z) : Z :=
  Z.land (Z.lor (Z.shiftl x n) (Z.shiftr x (64 - n))) mask64.

Definition round_constants : list Z :=
  [ 0x0000000000000001; 0x0000000000008082; 0x800000000000808A;
    0x8000000080008000; 0x000000000000808B; 0x0000000080000001;
    0x8000000080008081; 0x8000000000008009; 0x000000000000008A;
    0x0000000000000088; 0x0000000080008009; 0x000000008000000A;
    0x000000008000808B; 0x800000000000008B; 0x8000000000008089;
    0x8000000000008003; 0x8000000000008002; 0x8000000000000080;
    0x000000000000800A; 0x800000008000000A; 0x8000000080008081;
    0x8000000000008080; 0x0000000080000001; 0x8000000080008008 ].

(** Rotation offsets, indexed by lane [x + 5 y]. *)
Definition rho_offsets : list Z :=
  [ 0; 1; 62; 28; 27;
    36; 44; 6; 55; 20;
    3; 10; 43; 25; 39;
    41; 45; 15; 21; 8;
    18; 2; 61; 56; 14 ].

Definition lane (a : list Z) (x y : nat) : Z := nth ((x mod 5) + 5 * (y mod 5)) a 0.

Definition theta (a : list Z) : list Z :=
  let c x := Z.lxor (lane a x 0) (Z.lxor (lane a x 1)
               (Z.lxor (lane a x 2) (Z.lxor (lane a x 3) (lane a x 4)))) in
  let d x := Z.lxor (c ((x + 4) mod 5)%nat) (rotl64 (c ((x + 1) mod 5)%nat) 1) in
  map (fun i => Z.lxor (nth i a 0) (d (i mod 5)%nat)) (seq 0 25).

(** [B[y, 2x+3y] = rot(A[x,y], r[x,y])]; written as a gather:
    [B[x', y'] = rot(A[x, y])] with [x = (x' + 3 y') mod 5], [y = x']. *)
Definition rho_pi (a : list Z) : list Z :=
  map (fun i =>
         let x' := (i mod 5)%nat in
         let y' := (i / 5)%nat in
         let x := ((x' + 3 * y') mod 5)%nat in
         let y := x' in
         let j := (x + 5 * y)%nat in
         rotl64 (nth j a 0) (nth j rho_offsets 0))
      (seq 0 25).

Definition chi (b : list Z) : list Z :=
  map (fun i =>
         let x := (i mod 5)%nat in
         let y := (i / 5)%nat in
         Z.lxor (lane b x y)
                (Z.land (Z.lxor (lane b (x + 1) y) mask64) (lane b (x + 2) y)))
      (seq 0 25).

Definition iota (rc : Z) (a : list Z) : list Z :=
  match a with
  | [] => []
  | a0 :: rest => Z.lxor a0 rc :: rest
  end.

Definition keccak_f (a : list Z) : list Z :=
  fold_left (fun st rc => iota rc (chi (rho_pi (theta st)))) round_constants a.

Definition rate : nat := 136.

(** Little-endian lanes of a 136-byte block, padded with zero lanes. *)
Fixpoint bytes_to_lanes (n : nat) (bs : list byte) : list Z :=
  match n with
  | O => []
  | S n' =>
      let w := firstn 8 bs in
      fold_right (fun b acc => acc * 256 + byte_to_Z b) 0 w
        :: bytes_to_lanes n' (skipn 8 bs)
  end.

Definition absorb_block (st : list Z) (blk : list byte) : list Z :=
  keccak_f (map (fun p => Z.lxor (fst p) (snd p))
                (combine st (bytes_to_lanes 25 blk))).

(** Keccak padding [0x01 .. 0x80] to a multiple of the rate. *)
Definition pad (m : list byte) : list byte :=
  let k := (rate - (length m mod rate))%nat in
  if (k =? 1)%nat then m ++ [Byte.x81]
  else m ++ [Byte.x01] ++ repeat Byte.x00 (k - 2) ++ [Byte.x80].

Fixpoint absorb (fuel : nat) (st : list Z) (m : list byte) : list Z :=
  match fuel with
  | O => st
  | S f =>
      match m with
      | [] => st
      | _ => absorb f (absorb_block st (firstn rate m)) (skipn rate m)
      end
  end.

Definition lane_bytes (w : Z) : list byte :=
  map (fun i => Z_to_byte (Z.shiftr w (8 * Z.of_nat i))) (seq 0 8).

Definition keccak256 (m : list byte) : list byte :=
  let p := pad m in
  let st := absorb (length p) (repeat 0 25) p in
  firstn 32 (flat_map lane_bytes st).

End Keccak.

Definition keccak256 : list byte -> list byte := Keccak.keccak256.

Definition hex_of (s : string) : list byte :=
  let fix digits (s : string) : list Z :=
    match s with
    | EmptyString => []
    | String c s' =>
        let n := Z.of_nat (nat_of_ascii c) in
        (if (48 <=? n) && (n <=? 57) then n - 48
         else if (97 <=? n) && (n <=? 102) then n - 87
         else n - 55) :: digits s'
    end in
  let fix pairs (ds : list Z) : list byte :=
    match ds with
    | a :: b :: rest => Z_to_byte (16 * a + b) :: pairs rest
    | _ => []
    end in
  pairs (digits s).

Definition string_bytes (s : string) : list byte :=
  map (fun c => Z_to_byte (Z.of_nat (nat_of_ascii c))) (list_ascii_of_string s).

(* ================================================================== *)
(** ** secp256k1 (the [secp256k1] crate, i.e. libsecp256k1) *)

Module Secp256k1.

Definition p : Z := 2 ^ 256 - 2 ^ 32 - 977.
Definition N : Z := 0xFFFFFFFFFFFFFFFFFFFFFFFFFFFFFFFEBAAEDCE6AF48A03BBFD25E8CD0364141.
Definition Gx : Z := 0x79BE667EF9DCBBAC55A06295CE870B07029BFCDB2DCE28D959F2815B16F81798.
Definition Gy : Z := 0x483ADA7726A3C4655DA4FBFC0E1108A8FD17B448A68554199C47D08FFB10D4B8.

Fixpoint pow_pos_mod (b : Z) (e : positive) (m : Z) : Z :=
  match e with
  | xH => b mod m
  | xO e' => let h := pow_pos_mod b e' m in (h * h) mod m
  | xI e' => let h := pow_pos_mod b e' m in (h * h * b) mod m
  end.

Definition pow_mod (b e m : Z) : Z :=
  match e with
  | Zpos e' => pow_pos_mod b e' m
  | _ => 1 mod m
  end.

(** Inverse modulo a prime (both [p] and [N] are prime). *)
Definition inv_mod (a m : Z) : Z := pow_mod a (m - 2) m.

Inductive point : Type := Inf | Aff (x y : Z).

(** Jacobian coordinates [(X, Y, Z)], [Z = 0] being the point at infinity. *)
Definition jac : Type := (Z * Z * Z)%type.

Definition to_jac (P : point) : jac :=
  match P with Inf => (1, 1, 0) | Aff x y => (x, y, 1) end.

(** Field arithmetic modulo [p = 2^256 - 4294968273], reducing with
    [2^256 = 4294968273 (mod p)]. *)
Definition fold256 (x : Z) : Z :=
  Z.land x (Z.ones 256) + 4294968273 * Z.shiftr x 256.

Definition fred (x : Z) : Z :=
  let r := fold256 (fold256 x) in
  if p <=? r then r - p else r.

Definition fmul a b := fred (a * b).
Definition fadd a b := let c := a + b in if p <=? c then c - p else c.
Definition fsub a b := if b <=? a then a - b else a - b + p.

Fixpoint fpow_pos (b : Z) (e : positive) : Z :=
  match e with
  | xH => b
  | xO e' => let h := fpow_pos b e' in fmul h h
  | xI e' => let h := fpow_pos b e' in fmul (fmul h h) b
  end.

Definition fpow (b e : Z) : Z :=
  match e with Zpos e' => fpow_pos b e' | _ => 1 end.

Definition jdouble (P : jac) : jac :=
  let '(X1, Y1, Z1) := P in
  if (Z1 =? 0) || (Y1 =? 0) then (1, 1, 0) else
  let A := fmul X1 X1 in
  let B := fmul Y1 Y1 in
  let C := fmul B B in
  let D := fmul 2 (fsub (fsub (fmul (fadd X1 B) (fadd X1 B)) A) C) in
  let E := fmul 3 A in
  let F := fmul E E in
  let X3 := fsub F (fmul 2 D) in
  let Y3 := fsub (fmul E (fsub D X3)) (fmul 8 C) in
  let Z3 := fmul 2 (fmul Y1 Z1) in
  (X3, Y3, Z3).

Definition jadd (P Q : jac) : jac :=
  let '(X1, Y1, Z1) := P in
  let '(X2, Y2, Z2) := Q in
  if Z1 =? 0 then Q else if Z2 =? 0 then P else
  let Z1Z1 := fmul Z1 Z1 in
  let Z2Z2 := fmul Z2 Z2 in
  let U1 := fmul X1 Z2Z2 in
  let U2 := fmul X2 Z1Z1 in
  let S1 := fmul Y1 (fmul Z2 Z2Z2) in
  let S2 := fmul Y2 (fmul Z1 Z1Z1) in
  if U1 =? U2 then (if S1 =? S2 then jdouble P else (1, 1, 0)) else
  let H := fsub U2 U1 in
  let R := fsub S2 S1 in
  let HH := fmul H H in
  let HHH := fmul H HH in
  let X3 := fsub (fsub (fmul R R) HHH) (fmul 2 (fmul U1 HH)) in
  let Y3 := fsub (fmul R (fsub (fmul U1 HH) X3)) (fmul S1 HHH) in
  let Z3 := fmul H (fmul Z1 Z2) in
  (X3, Y3, Z3).

Definition of_jac (P : jac) : point :=
  let '(X, Y, Z) := P in
  if Z =? 0 then Inf else
  let zi := fpow Z (p - 2) in
  let zi2 := fmul zi zi in
  Aff (fmul X zi2) (fmul Y (fmul zi zi2)).

(** Left-to-right double-and-add. *)
Fixpoint jmul_pos (k : positive) (P : jac) : jac :=
  match k with
  | xH => P
  | xO k' => jdouble (jmul_pos k' P)
  | xI k' => jadd (jdouble (jmul_pos k' P)) P
  end.

Definition jmul (k : Z) (P : jac) : jac :=
  match k mod N with
  | Zpos k' => jmul_pos k' P
  | _ => (1, 1, 0)
  end.

Definition G : point := Aff Gx Gy.

(** [k1 * P1 + k2 * P2]. *)
Definition lin2 (k1 : Z) (P1 : point) (k2 : Z) (P2 : point) : point :=
  of_jac (jadd (jmul k1 (to_jac P1)) (jmul k2 (to_jac P2))).

Definition on_curve (P : point) : bool :=
  match P with
  | Inf => false
  | Aff x y => (0 <=? x) && (x <? p) && (0 <=? y) && (y <? p) &&
               (fmul y y =? fadd (fmul x (fmul x x)) 7)
  end.

(** [secp256k1_ge_set_xo_var]: the point with abscissa [x] and the given
    parity of its ordinate, if [x^3 + 7] is a square. *)
Definition lift_x (x : Z) (odd : bool) : option point :=
  let y2 := fadd (fmul x (fmul x x)) 7 in
  let y := fpow y2 ((p + 1) / 4) in
  if negb (fmul y y =? y2) then None
  else if Bool.eqb (Z.odd y) odd then Some (Aff x y) else Some (Aff x (fsub 0 y)).

(** [secp256k1_ecdsa_sig_recover] for the recovery id [rid] (0..3), with
    [z] the message read as a big-endian scalar. *)
Definition recover (z r s : Z) (rid : Z) : option point :=
  if (r =? 0) || (s =? 0) || (N <=? r) || (N <=? s) then None else
  let x := if Z.testbit rid 1 then r + N else r in
  if p <=? x then None else
  match lift_x x (Z.testbit rid 0) with
  | None => None
  | Some R =>
      let rn := inv_mod r N in
      let u1 := (- (rn * z)) mod N in
      let u2 := (rn * s) mod N in
      match lin2 u1 G u2 R with
      | Inf => None
      | Q => Some Q
      end
  end.

(** ECDSA verification of [(r, s)] over the scalar [z] for the public key
    [Q] (the mathematical equation; no low-[s] requirement). *)
Definition ecdsa_valid (Q : point) (z r s : Z) : bool :=
  (0 <? r) && (r <? N) && (0 <? s) && (s <? N) && on_curve Q &&
  let w := inv_mod s N in
  match lin2 ((z mod N) * w mod N) G (r * w mod N) Q with
  | Inf => false
  | Aff x _ => x mod N =? r
  end.

(** [PublicKey::serialize_uncompressed()[1..65]]. *)
Definition pubkey_bytes (Q : point) : list byte :=
  match Q with
  | Inf => []
  | Aff x y => Z_to_be 32 x ++ Z_to_be 32 y
  end.

End Secp256k1.

(** [Address::from_slice(&keccak256(pubkey)[12..])]. *)
Definition address_of (Q : Secp256k1.point) : list byte :=
  slice 12 32 (keccak256 (Secp256k1.pubkey_bytes Q)).

(* ================================================================== *)
(** ** Results and signatures *)

(** [anyhow::Result]: errors carry their message. *)
Inductive result (A : Type) : Type :=
| Ok (a : A)
| Err (msg : string).
Arguments Ok {A} a.
Arguments Err {A} msg.

(** [ethers_core::types::Signature]. *)
Record Signature : Type := mkSig { sig_r : Z; sig_s : Z; sig_v : Z }.

Definition curve_n : Z := Secp256k1.N.
Definition half_n : Z := curve_n / 2.

(* ================================================================== *)
(** ** DER signatures ([src/crypto/der.rs]) *)

(** A DER INTEGER body is minimal and non-negative. *)
Definition der_int_minimal (body : list byte) : bool :=
  match body with
  | [] => false
  | [b] => byte_to_Z b <? 128
  | b :: c :: _ => (byte_to_Z b <? 128) && negb ((byte_to_Z b =? 0) && (byte_to_Z c <? 128))
  end.

(** One [INTEGER] (tag [0x02], short-form length). *)
Definition der_int (bs : list byte) : option (Z * list byte) :=
  match bs with
  | t :: len :: rest =>
      if (byte_to_Z t =? 2) && (byte_to_Z len <? 128) then
        let n := Z.to_nat (byte_to_Z len) in
        let body := firstn n rest in
        if (length body =? n)%nat && der_int_minimal body
        then Some (be_to_Z body, skipn n rest) else None
      else None
  | _ => None
  end.

(** [k256::ecdsa::Signature::from_der]: a strict-DER [SEQUENCE] of two
    [INTEGER]s [r], [s], each a scalar in [1, N-1]. *)
Definition parse_der (bs : list byte) : option (Z * Z) :=
  match bs with
  | t :: len :: rest =>
      if (byte_to_Z t =? 0x30) && (byte_to_Z len <? 128) &&
         (length rest =? Z.to_nat (byte_to_Z len))%nat then
        match der_int rest with
        | Some (r, rest1) =>
            match der_int rest1 with
            | Some (s, []) =>
                if (0 <? r) && (r <? curve_n) && (0 <? s) && (s <? curve_n)
                then Some (r, s) else None
            | _ => None
            end
        | None => None
        end
      else None
  | _ => None
  end.

(** [RecoverableSignature::from_compact]: rejects an overflowing scalar. *)
Definition compact_ok (r s : Z) : bool := (r <? curve_n) && (s <? curve_n).

(** The low-[s] step of [der_to_ethers_signature]. *)
Definition enforce_low_s (r s v : Z) : Signature :=
  if half_n <? s then
    mkSig r (if s <=? curve_n then curve_n - s else 0) (if v =? 27 then 28 else 27)
  else mkSig r s v.

Definition address_matches (expected : option (list byte)) (addr : list byte) : bool :=
  match expected with
  | None => true
  | Some a => bytes_eqb a addr
  end.

(** The [for recid_val in 0..4] loop of [der_to_ethers_signature]. *)
Fixpoint der_recid_loop (z r s : Z) (expected : option (list byte)) (ids : list Z)
  : result Signature :=
  match ids with
  | [] => Err "unable to recover public key from signature"
  | rid :: rest =>
      if negb (compact_ok r s) then Err "malformed signature" else
      match Secp256k1.recover z r s rid with
      | Some pk =>
          if address_matches expected (address_of pk)
          then Ok (enforce_low_s r s (rid + 27))
          else der_recid_loop z r s expected rest
      | None => der_recid_loop z r s expected rest
      end
  end.

Definition der_to_ethers_signature (der_sig msg_hash : list byte)
    (expected_address : option (list byte)) : result Signature :=
  match parse_der der_sig with
  | None => Err "invalid der signature"
  | Some (r, s) =>
      if negb (length msg_hash =? 32)%nat then Err "message hash must be 32 bytes"
      else der_recid_loop (be_to_Z msg_hash) r s expected_address [0; 1; 2; 3]
  end.

(** A DER signature [(r, s) = (7, 7)] over the digest [N - 7]. The nonce
    point [R] is the curve point of abscissa [7 + N] (below [p]) with an even
    ordinate, and the signing key is [Q = G + R]; [7] is not the abscissa of
    a curve point, so recovery ids 0 and 1 fail and recovery id 2 matches. *)
Definition der_rid2 : list byte := hex_of "3006020107020107".
Definition digest_rid2 : list byte := Z_to_be 32 (curve_n - 7).
Definition point_or_inf (o : option Secp256k1.point) : Secp256k1.point :=
  match o with
  | Some P => P
  | None => Secp256k1.Inf
  end.
Definition nonce_point_rid2 : Secp256k1.point :=
  point_or_inf (Secp256k1.lift_x (7 + curve_n) false).
Definition key_rid2 : Secp256k1.point :=
  Secp256k1.lin2 1 Secp256k1.G 1 nonce_point_rid2.

(** The same digest signed with [(7, N - 7)] under the key [G - R], where
    [-R] is the curve point of abscissa [7 + N] with an odd ordinate: [s]
    is above [N/2] and recovery id 2 recovers [G - R]. *)
Definition der_hs2 : list byte :=
  [Byte.x30; Byte.x26; Byte.x02; Byte.x01; Byte.x07; Byte.x02; Byte.x21; Byte.x00]
  ++ Z_to_be 32 (curve_n - 7).
Definition key_hs2 : Secp256k1.point :=
  Secp256k1.lin2 1 Secp256k1.G 1 (point_or_inf (Secp256k1.lift_x (7 + curve_n) true)).

(* ================================================================== *)
(** ** Typed transactions *)

(** [TransactionRequest] (legacy); [from] is not used by the core. *)
Record LegacyRequest : Type := mkLegacy {
  l_to : option (list byte); l_value : option Z; l_data : list byte;
  l_nonce : option Z; l_gas : option Z; l_gas_price : option Z;
  l_chain_id : option Z }.

(** [Eip1559TransactionRequest]; the access list is not used by the core. *)
Record Eip1559Request : Type := mkEip1559 {
  e_to : option (list byte); e_value : option Z; e_data : list byte;
  e_nonce : option Z; e_gas : option Z;
  e_max_priority_fee_per_gas : option Z; e_max_fee_per_gas : option Z;
  e_chain_id : option Z }.

Inductive TypedTransaction : Type :=
| Legacy (req : LegacyRequest)
| Eip2930 (req : LegacyRequest)
| Eip1559 (req : Eip1559Request).

(** [Eip1559TransactionRequest::nonce]. *)
Definition eip1559_with_nonce (req : Eip1559Request) (n : Z) : Eip1559Request :=
  {| e_to := e_to req; e_value := e_value req; e_data := e_data req;
     e_nonce := Some n; e_gas := e_gas req;
     e_max_priority_fee_per_gas := e_max_priority_fee_per_gas req;
     e_max_fee_per_gas := e_max_fee_per_gas req; e_chain_id := e_chain_id req |}.

(** [set_nonce_tx] ([src/sim.rs]). *)
Definition set_nonce_tx (tx : TypedTransaction) (nonce : Z) : TypedTransaction :=
  match tx with
  | Eip1559 req => Eip1559 (eip1559_with_nonce req nonce)
  | other => other
  end.

Definition tx_nonce (tx : TypedTransaction) : option Z :=
  match tx with
  | Legacy req | Eip2930 req => l_nonce req
  | Eip1559 req => e_nonce req
  end.

(* ================================================================== *)
(** ** Remote signatures ([RemoteBasedSigner::sign_typed_transaction]) *)

(** The 64-byte branch: the first recovery id for which recovery succeeds. *)
Fixpoint compact64_loop (z r s : Z) (ids : list Z) : option Signature :=
  match ids with
  | [] => None
  | rid :: rest =>
      if compact_ok r s then
        match Secp256k1.recover z r s rid with
        | Some _ => Some (mkSig r s (rid + 27))
        | None => compact64_loop z r s rest
        end
      else compact64_loop z r s rest
  end.

(** DER first, then a 65-byte [r || s || v], then a 64-byte [r || s]. *)
Definition resolve_remote_signature (sig_bytes sighash : list byte) : result Signature :=
  match der_to_ethers_signature sig_bytes sighash None with
  | Ok sg => Ok sg
  | Err _ =>
      if (length sig_bytes =? 65)%nat then
        Ok (mkSig (be_to_Z (slice 0 32 sig_bytes)) (be_to_Z (slice 32 64 sig_bytes))
                  (byte_to_Z (nth 64 sig_bytes Byte.x00)))
      else if (length sig_bytes =? 64)%nat then
        if negb (length sighash =? 32)%nat then Err "invalid message" else
        match compact64_loop (be_to_Z sighash) (be_to_Z (slice 0 32 sig_bytes))
                (be_to_Z (slice 32 64 sig_bytes)) [0; 1; 2; 3] with
        | Some sg => Ok sg
        | None => Err "could not recover signature"
        end
      else Err "unsupported signature format from remote"
  end.

(** EIP-1559 transactions carry the parity bit. *)
Definition normalize_v (tx : TypedTransaction) (sg : Signature) : Signature :=
  match tx with
  | Eip1559 _ =>
      mkSig (sig_r sg) (sig_s sg) (if 27 <=? sig_v sg then sig_v sg - 27 else sig_v sg)
  | _ => sg
  end.

(** The signature [RemoteBasedSigner::sign_typed_transaction] RLP-signs
    [tx] with, given the remote's [sign_digest] and [tx.sighash()]. *)
Definition remote_signature (sign_digest : list byte -> result (list byte))
    (tx : TypedTransaction) (sighash : list byte) : result Signature :=
  match sign_digest sighash with
  | Err _ => Err "remote sign failed"
  | Ok sig_bytes =>
      match resolve_remote_signature sig_bytes sighash with
      | Err e => Err e
      | Ok sg => Ok (normalize_v tx sg)
      end
  end.

Definition u64_max : Z := 2 ^ 64 - 1.

(** [normalize_v] of [ethers-core] ([types/transaction/mod.rs]):
    [if v > 1 { v - chain_id * 2 - 35 } else { v }] in [u64] arithmetic,
    whose overflow or underflow panics ([None]). *)
Definition rlp_normalize_v (v chain_id : Z) : option Z :=
  if v <=? 1 then Some v else
  let c2 := chain_id * 2 in
  if u64_max <? c2 then None else
  if v <? c2 then None else
  if v - c2 <? 35 then None else Some (v - c2 - 35).

Definition chain_id_or_one (c : option Z) : Z :=
  match c with Some c => c | None => 1 end.

Definition tx_chain_id (tx : TypedTransaction) : option Z :=
  match tx with
  | Legacy req | Eip2930 req => l_chain_id req
  | Eip1559 req => e_chain_id req
  end.

(** [TypedTransaction::rlp_signed]: the transaction followed by the [v],
    [r] and [s] it encodes.  [TransactionRequest::rlp_signed] appends [v]
    as given; [Eip2930TransactionRequest::rlp_signed] and
    [Eip1559TransactionRequest::rlp_signed] append
    [normalize_v(v, chain_id.unwrap_or(1))].  [None] is a panic. *)
Definition rlp_signed (tx : TypedTransaction) (sg : Signature)
  : option (TypedTransaction * Signature) :=
  let typed c := option_map (fun v => (tx, mkSig (sig_r sg) (sig_s sg) v))
                            (rlp_normalize_v (sig_v sg) (chain_id_or_one c)) in
  match tx with
  | Legacy _ => Some (tx, sg)
  | Eip2930 req => typed (l_chain_id req)
  | Eip1559 req => typed (e_chain_id req)
  end.

(** [RemoteBasedSigner::sign_typed_transaction]: [Some (Ok raw)] with
    [raw] given by its fields, [Some (Err _)] an error, [None] a panic. *)
Definition sign_typed_transaction_remote (sign_digest : list byte -> result (list byte))
    (tx : TypedTransaction) (sighash : list byte)
  : option (result (TypedTransaction * Signature)) :=
  match remote_signature sign_digest tx sighash with
  | Err e => Some (Err e)
  | Ok sg => option_map Ok (rlp_signed tx sg)
  end.

(* ================================================================== *)
(** ** Receipts and the forked node *)

(** [TransactionReceipt]: the fields the core reads. *)
Record Receipt : Type := mkReceipt {
  rc_status : option N; rc_gas_used : option N; rc_effective_gas_price : option N }.

(** The forked node: the raw transactions applied to its state, the next
    block's base fee, and the [evm_snapshot] stack (id and saved state). *)
Record NodeState : Type := mkNode {
  node_txs : list (list byte);
  node_next_base_fee : option Z;
  node_snapshots : list (Z * (list (list byte) * option Z)) }.

(** How the node answers one broadcast: mined with a receipt, the
    [send_raw_transaction] call fails, or the transaction is accepted but no
    receipt arrives within the 10 s timeout. *)
Inductive Verdict : Type :=
| Mined (rc : Receipt)
| SendFailed
| ReceiptTimeout.

(** The node's answers to the RPC calls of one simulation. *)
Record NodeWorld : Type := mkNodeWorld {
  nw_rpc_url_ok : bool;
  nw_snapshot_ok : bool;
  nw_set_base_fee_ok : bool;
  nw_revert_ok : bool;
  nw_verdict : list byte -> Verdict }.

Definition node_view (n : NodeState) : list (list byte) * option Z :=
  (node_txs n, node_next_base_fee n).

Definition with_txs (n : NodeState) (txs : list (list byte)) : NodeState :=
  mkNode txs (node_next_base_fee n) (node_snapshots n).

(** [evm_snapshot]: pushes the current state, returns its id. *)
Definition evm_snapshot (n : NodeState) : Z * NodeState :=
  let id := Z.of_nat (length (node_snapshots n)) in
  (id, mkNode (node_txs n) (node_next_base_fee n) ((id, node_view n) :: node_snapshots n)).

(** [evm_revert id]: restores the state saved under [id] and drops it and
    every later snapshot. *)
Fixpoint evm_revert_stack (id : Z) (st : list (Z * (list (list byte) * option Z)))
  : option ((list (list byte) * option Z) * list (Z * (list (list byte) * option Z))) :=
  match st with
  | [] => None
  | (i, v) :: rest => if i =? id then Some (v, rest) else evm_revert_stack id rest
  end.

Definition evm_revert (id : Z) (n : NodeState) : NodeState :=
  match evm_revert_stack id (node_snapshots n) with
  | Some ((txs, bf), rest) => mkNode txs bf rest
  | None => n
  end.

(** The broadcast loop of [simulate_signed_bundle]; [?] returns at once. *)
Fixpoint broadcast_loop (w : NodeWorld) (n : NodeState) (raws : list (list byte))
    (acc : list Receipt) : result (list Receipt) * NodeState :=
  match raws with
  | [] => (Ok (rev acc), n)
  | raw :: rest =>
      match nw_verdict w raw with
      | SendFailed => (Err "send_raw failed", n)
      | ReceiptTimeout => (Err "timeout awaiting tx", with_txs n (node_txs n ++ [raw]))
      | Mined rc => broadcast_loop w (with_txs n (node_txs n ++ [raw])) rest (rc :: acc)
      end
  end.

(** [Simulator::simulate_signed_bundle]. *)
Definition simulate_signed_bundle (w : NodeWorld) (n : NodeState)
    (signed_raw_txs : list (list byte)) (set_next_block_base_fee : option Z)
  : result (list Receipt) * NodeState :=
  if negb (nw_rpc_url_ok w) then (Err "invalid rpc url", n) else
  if negb (nw_snapshot_ok w) then (Err "snapshot failed", n) else
  let '(snap_id, n1) := evm_snapshot n in
  let set_bf :=
    match set_next_block_base_fee with
    | Some bf =>
        if nw_set_base_fee_ok w
        then Ok (mkNode (node_txs n1) (Some bf) (node_snapshots n1))
        else Err "set base fee failed"
    | None => Ok n1
    end in
  match set_bf with
  | Err e => (Err e, n1)
  | Ok n2 =>
      match broadcast_loop w n2 signed_raw_txs [] with
      | (Err e, n3) => (Err e, n3)
      | (Ok results, n3) =>
          if nw_revert_ok w then (Ok results, evm_revert snap_id n3)
          else (Err "revert failed", n3)
      end
  end.

(* ================================================================== *)
(** ** Scoring ([GasCostScorer]) *)

Definition u256_max : Z := 2 ^ 256 - 1.
Definition u128_max : Z := 2 ^ 128 - 1.
Definition i128_min : Z := - 2 ^ 127.
Definition i128_max : Z := 2 ^ 127 - 1.

(** [u128 as i128]: two's-complement reinterpretation. *)
Definition u128_as_i128 (v : Z) : Z := if v <=? i128_max then v else v - 2 ^ 128.

(** [U256::saturating_mul]. *)
Definition u256_saturating_mul (a b : Z) : Z := Z.min (a * b) u256_max.

Definition unwrap_or_default (o : option N) : Z := match o with Some v => Z.of_N v | None => 0 end.

(** [cost_i128] of one receipt. *)
Definition receipt_cost_i128 (r : Receipt) : Z :=
  let cost := u256_saturating_mul (unwrap_or_default (rc_gas_used r))
                                  (unwrap_or_default (rc_effective_gas_price r)) in
  if cost <=? u128_max then u128_as_i128 cost else Z.quot i128_max 8.

Definition is_revert (r : Receipt) : bool :=
  match rc_status r with Some st => (st =? 0)%N | None => false end.

(** The loop of [GasCostScorer::score]; [total -= cost_i128] is checked
    i128 arithmetic, an overflow panics ([None]). *)
Fixpoint gas_cost_score_loop (total : Z) (receipts : list Receipt) : option Z :=
  match receipts with
  | [] => Some total
  | r :: rest =>
      if is_revert r then Some (Z.quot i128_min 4) else
      let t := total - receipt_cost_i128 r in
      if (t <? i128_min) || (i128_max <? t) then None
      else gas_cost_score_loop t rest
  end.

Definition gas_cost_score (receipts : list Receipt) : option Z :=
  gas_cost_score_loop 0 receipts.

(* ================================================================== *)
(** ** Nonce sweep ([simulate_unsigned_bundle_try_nonces_with_scorer]) *)

(** The value a spawned task yields to [FuturesUnordered]: its own result,
    or a panic turned into a [JoinError] (a u64 overflow under
    [overflow-checks]). *)
Inductive TaskResult (A : Type) : Type :=
| TOk (a : A)
| TErr (msg : string)
| TPanic.
Arguments TOk {A} a.
Arguments TErr {A} msg.
Arguments TPanic {A}.

(** [(nonce, score, receipts, signed_blob)]. *)
Definition Outcome : Type := (Z * Z * list Receipt * list (list byte))%type.

Definition outcome_nonce (o : Outcome) : Z := fst (fst (fst o)).

(** The signer, the simulation each offset's task observes on the shared
    node, and the scorer ([Scorer::score] with [pnl = None]); [None] is a
    panic of the scorer, e.g. [GasCostScorer]'s checked [i128] arithmetic. *)
Record SweepEnv : Type := mkSweepEnv {
  sw_sign : TypedTransaction -> result (list byte);
  sw_simulate : nat -> list (list byte) -> result (list Receipt);
  sw_score : list Receipt -> list (list byte) -> option Z }.

(** The node calls of a sweep. *)
Inductive SweepEvent : Type :=
| SimulateCall (offset : nat) (signed_blob : list (list byte)).

(** [for tx in unsigned { set_nonce_tx; sign; push; current += 1 }]. *)
Fixpoint sign_bundle (sign : TypedTransaction -> result (list byte)) (current : Z)
    (txs : list TypedTransaction) : TaskResult (list (list byte)) :=
  match txs with
  | [] => TOk []
  | tx :: rest =>
      match sign (set_nonce_tx tx current) with
      | Err e => TErr e
      | Ok signed =>
          if u64_max <? current + 1 then TPanic else
          match sign_bundle sign (current + 1) rest with
          | TOk blob => TOk (signed :: blob)
          | TErr e => TErr e
          | TPanic => TPanic
          end
      end
  end.

(** The task spawned for [offset]. *)
Definition nonce_task (env : SweepEnv) (unsigned : list TypedTransaction)
    (base_nonce : Z) (offset : nat) : TaskResult Outcome * list SweepEvent :=
  let start := base_nonce + Z.of_nat offset in
  if u64_max <? start then (TPanic, []) else
  match sign_bundle (sw_sign env) start unsigned with
  | TOk blob =>
      (match sw_simulate env offset blob with
       | Ok receipts =>
           match sw_score env receipts blob with
           | Some score => TOk (start, score, receipts, blob)
           | None => TPanic
           end
       | Err e => TErr e
       end, [SimulateCall offset blob])
  | TErr e => (TErr e, [])
  | TPanic => (TPanic, [])
  end.

(** The [while let Some(r) = futs.next()] loop: keeps the successes. *)
Fixpoint collect_outcomes (rs : list (TaskResult Outcome)) : list Outcome :=
  match rs with
  | [] => []
  | TOk o :: rest => o :: collect_outcomes rest
  | _ :: rest => collect_outcomes rest
  end.

(** [results.sort_by_key(|t| t.0)], a stable sort (insertion). *)
Fixpoint insert_by_nonce (o : Outcome) (l : list Outcome) : list Outcome :=
  match l with
  | [] => [o]
  | o' :: l' =>
      if outcome_nonce o' <=? outcome_nonce o then o' :: insert_by_nonce o l'
      else o :: l
  end.

Definition sort_by_nonce (l : list Outcome) : list Outcome :=
  fold_left (fun acc o => insert_by_nonce o acc) l [].

(** [tokio::sync::Semaphore::MAX_PERMITS = usize::MAX >> 3] on a 64-bit
    target; [Semaphore::new] panics above it. *)
Definition max_permits : Z := Z.shiftr (2 ^ 64 - 1) 3.

Inductive SweepResult : Type :=
| SweepDone (outcomes : list Outcome)
| SweepHang
| SweepPanic.

(** The sweep; [completion_order] is the order in which the spawned tasks
    finish.  [Semaphore::new(concurrency)] comes first and panics when
    [concurrency > MAX_PERMITS]; with no permit the first [acquire_owned]
    never completes. *)
Definition simulate_unsigned_bundle_try_nonces_with_scorer (env : SweepEnv)
    (unsigned_txs : list TypedTransaction) (base_nonce : Z) (nonce_range : nat)
    (concurrency : nat) (completion_order : list nat) : SweepResult * list SweepEvent :=
  if max_permits <? Z.of_nat concurrency then (SweepPanic, []) else
  if (concurrency =? 0)%nat && (0 <? nonce_range)%nat then (SweepHang, []) else
  let runs := map (nonce_task env unsigned_txs base_nonce) completion_order in
  (SweepDone (sort_by_nonce (collect_outcomes (map fst runs))), flat_map snd runs).

(* ================================================================== *)
(** ** Concrete inputs *)

Definition receipt_ok : Receipt := mkReceipt (Some 1%N) (Some 21000%N) (Some 1000000000%N).

(** A node that mines [0x01] and refuses [0x02]. *)
Definition world_second_refused : NodeWorld :=
  mkNodeWorld true true true true
    (fun raw => if bytes_eqb raw [Byte.x01] then Mined receipt_ok else SendFailed).

Definition fresh_node : NodeState := mkNode [] None [].

Definition legacy_nonce_7 : TypedTransaction :=
  Legacy (mkLegacy None (Some 0) [] (Some 7) (Some 21000) (Some 1000000000) (Some 1)).

(** A signer whose output is the nonce it was asked to sign. *)
Definition nonce_echo_env : SweepEnv :=
  mkSweepEnv
    (fun tx => Ok (Z_to_be 8 (match tx_nonce tx with Some n => n | None => 0 end)))
    (fun _ _ => Ok [receipt_ok])
    (fun _ _ => Some 0).

(** A receipt whose gas cost [2^128] does not fit in [u128]. *)
Definition receipt_huge : Receipt := mkReceipt (Some 1%N) (Some (2 ^ 128)%N) (Some 1%N).

(** [U256] cost of a receipt, and the amount subtracted for it when that
    cost is at most [i128::MAX] or above [u128::MAX]. *)
Definition receipt_cost (r : Receipt) : Z :=
  u256_saturating_mul (unwrap_or_default (rc_gas_used r))
                      (unwrap_or_default (rc_effective_gas_price r)).

Definition clamped_cost (r : Receipt) : Z :=
  if receipt_cost r <=? i128_max then receipt_cost r else Z.quot i128_max 8.

Fixpoint before_revert (rs : list Receipt) : list Receipt :=
  match rs with
  | [] => []
  | r :: rest => if is_revert r then [] else r :: before_revert rest
  end.

Definition sum_Z (l : list Z) : Z := fold_right Z.add 0 l.

(* ================================================================== *)
(** ** Relay client ([src/executor.rs]) *)

(** [serde_json::Value]; objects are key-ordered maps as in [serde_json]'s
    default [Map]. *)
#[warnings="-register-all"]
Inductive Json : Type :=
| JNull
| JBool (b : bool)
| JNum (z : Z)
| JStr (s : string)
| JArr (l : list Json)
| JObj (fields : list (string * Json)).

Definition hex_digit (d : Z) : ascii :=
  ascii_of_nat (Z.to_nat (if d <? 10 then 48 + d else 87 + d)).

(** [hex::encode]: two lowercase digits per byte. *)
Definition hex_encode (bs : list byte) : string :=
  string_of_list_ascii
    (flat_map (fun b => [hex_digit (byte_to_Z b / 16); hex_digit (byte_to_Z b mod 16)]) bs).

(** [format!("{:x}", n)] for an unsigned [n]. *)
Fixpoint hex_u64_digits (fuel : nat) (n : Z) (acc : list ascii) : list ascii :=
  match fuel with
  | O => acc
  | S f =>
      let acc' := hex_digit (n mod 16) :: acc in
      if n <? 16 then acc' else hex_u64_digits f (n / 16) acc'
  end.

Definition hex_u64 (n : Z) : string := string_of_list_ascii (hex_u64_digits 16 n []).

Definition base64_char (d : Z) : ascii :=
  ascii_of_nat (Z.to_nat
    (if d <? 26 then 65 + d else if d <? 52 then 71 + d
     else if d <? 62 then d - 4 else if d =? 62 then 43 else 47)).

(** [base64::encode] (standard alphabet, with padding). *)
Fixpoint base64_chunks (fuel : nat) (bs : list byte) : list ascii :=
  match fuel with
  | O => []
  | S f =>
      match bs with
      | [] => []
      | [a] =>
          let n := byte_to_Z a * 65536 in
          [base64_char (n / 262144); base64_char (n / 4096 mod 64); "="%char; "="%char]
      | [a; b] =>
          let n := byte_to_Z a * 65536 + byte_to_Z b * 256 in
          [base64_char (n / 262144); base64_char (n / 4096 mod 64);
           base64_char (n / 64 mod 64); "="%char]
      | a :: b :: c :: rest =>
          let n := byte_to_Z a * 65536 + byte_to_Z b * 256 + byte_to_Z c in
          [base64_char (n / 262144); base64_char (n / 4096 mod 64);
           base64_char (n / 64 mod 64); base64_char (n mod 64)] ++ base64_chunks f rest
      end
  end.

Definition base64_encode (bs : list byte) : string :=
  string_of_list_ascii (base64_chunks (length bs) bs).

Record HttpRequest : Type := mkRequest { req_url : string; req_body : Json }.

(** A response: its text, and its body parsed as JSON when it is JSON. *)
Record HttpResponse : Type := mkResponse { resp_text : string; resp_json : option Json }.

(** [reqwest] POST (10 s timeout); [Err] on a transport failure. *)
Definition HttpPost : Type := HttpRequest -> result HttpResponse.

Record RelayClient : Type := mkRelayClient { relay_url : option string }.

(** [RelayClient::submit_bundle]; the second component lists the requests
    sent. *)
Definition submit_bundle (post : HttpPost) (rc : RelayClient) (bundle : list byte)
  : result string * list HttpRequest :=
  match relay_url rc with
  | Some url =>
      let req := mkRequest url (JObj [("bundle"%string, JStr (base64_encode bundle))]) in
      match post req with
      | Err _ => (Err "relay post failed", [req])
      | Ok resp => (Ok (resp_text resp), [req])
      end
  | None => (Ok "stub"%string, [])
  end.

Definition bundle_params (signed_txs : list (list byte)) (block_number : option Z) : Json :=
  JObj ((match block_number with
         | Some bn => [("blockNumber"%string, JStr (String.append "0x" (hex_u64 bn)))]
         | None => []
         end) ++
        [("txs"%string, JArr (map (fun s => JStr (String.append "0x" (hex_encode s))) signed_txs))]).

Definition rpc_envelope (method : string) (params : Json) : Json :=
  JObj [("id"%string, JNum 1); ("jsonrpc"%string, JStr "2.0"); ("method"%string, JStr method);
        ("params"%string, JArr [params])].

Definition relay_call (post : HttpPost) (rc : RelayClient) (method : string)
    (post_err json_err : string) (signed_txs : list (list byte)) (block_number : option Z)
  : result Json * list HttpRequest :=
  match relay_url rc with
  | None => (Err "FLASHBOTS_RELAY_URL not configured", [])
  | Some url =>
      let req := mkRequest url (rpc_envelope method (bundle_params signed_txs block_number)) in
      match post req with
      | Err _ => (Err post_err, [req])
      | Ok resp =>
          match resp_json resp with
          | Some v => (Ok v, [req])
          | None => (Err json_err, [req])
          end
      end
  end.

(** [RelayClient::submit_flashbots_bundle]. *)
Definition submit_flashbots_bundle (post : HttpPost) (rc : RelayClient)
    (signed_txs : list (list byte)) (block_number : option Z) : result Json * list HttpRequest :=
  relay_call post rc "eth_sendBundle" "flashbots post failed"
    "invalid json response from relay" signed_txs block_number.

(** [RelayClient::simulate_flashbots_bundle]. *)
Definition simulate_flashbots_bundle (post : HttpPost) (rc : RelayClient)
    (signed_txs : list (list byte)) (block_number : option Z) : result Json * list HttpRequest :=
  relay_call post rc "eth_simulateBundle" "flashbots simulate failed"
    "invalid json response from relay simulate" signed_txs block_number.

(** A relay that answers every request with [{"result":"ok"}]. *)
Definition relay_ok : HttpPost :=
  fun _ => Ok (mkResponse "{result:ok}" (Some (JObj [("result"%string, JStr "ok")]))).

(* ================================================================== *)
(** ** IEEE-754 binary64 ([f64]) *)

(** [f64] is Rocq's [spec_float] with 53-bit precision and exponent bound
    1024; every operation rounds to nearest, ties to even. *)
Definition f64 : Type := spec_float.

Definition f64_mul (x y : f64) : f64 := SFmul 53 1024 x y.
Definition f64_div (x y : f64) : f64 := SFdiv 53 1024 x y.
Definition f64_one : f64 := binary_normalize 53 1024 1 0 false.

(** [n as f64] for an unsigned integer [n]. *)
Definition u128_to_f64 (n : Z) : f64 := binary_normalize 53 1024 n 0 false.

(** [x as u128]: truncation toward zero, saturating at both ends, [NaN] to 0. *)
Definition f64_to_u128 (x : f64) : Z :=
  match x with
  | S754_nan | S754_zero _ | S754_infinity true => 0
  | S754_infinity false => u128_max
  | S754_finite true _ _ => 0
  | S754_finite false m e =>
      if 0 <=? e then Z.min (Z.pos m * 2 ^ e) u128_max else Z.pos m / 2 ^ (- e)
  end.

(** [f64::powi], i.e. [__powidf2] of the compiler runtime: square and
    multiply over the bits of [|b|], reciprocal for a negative exponent. *)
Fixpoint powi_loop (fuel : nat) (a r : f64) (b : Z) : f64 :=
  match fuel with
  | O => r
  | S f =>
      let r' := if Z.odd b then f64_mul r a else r in
      let b' := Z.div2 b in
      if b' =? 0 then r' else powi_loop f (f64_mul a a) r' b'
  end.

Definition powi (a : f64) (b : Z) : f64 :=
  let r := powi_loop 33 a f64_one (Z.abs b) in
  if b <? 0 then f64_div f64_one r else r.

Definition i32_max : Z := 2 ^ 31 - 1.

(** [n as i32] for a [usize] [n]. *)
Definition usize_as_i32 (n : Z) : Z :=
  let m := n mod 2 ^ 32 in if m <=? i32_max then m else m - 2 ^ 32.

(* ================================================================== *)
(** ** Autosubmitter ([src/autosubmit.rs]) *)

Record AutosubmitConfig : Type := mkAutosubmitConfig {
  max_retries : nat;
  poll_interval_secs : Z;
  max_wait_secs : Z;
  bump_factor : f64;
  max_bumps : nat;
  kill_switch_max_gas_wei : option Z;
  kill_switch_max_loss_wei : option Z }.

(** [Signer::sign_typed_transaction]; the error is its [to_string]. *)
Definition Signer : Type := TypedTransaction -> result (list byte).

(** The outcome of [submit_and_monitor_with_rebump]: its [Result], a panic,
    or [ARunning] when the fuel given to the polling loop runs out. *)
Inductive AutoOutcome : Type :=
| AOk (receipts : list Json)
| AErr (msg : string)
| APanic (msg : string)
| ARunning.

Inductive AutoEvent : Type :=
| ERelay (req : HttpRequest)
| ESend (raw : list byte)
| EGetReceipt (tx_hash : list byte)
| ESign (tx : TypedTransaction)
| ESleep (secs : Z).

(** The network: the relay endpoint, whether [Provider::<Http>::try_from]
    accepts the configured [rpc_url], and the node's answer to
    [get_transaction_receipt] in polling round [k] ([None] for [Ok(None)]
    and for errors, which the code ignores alike). *)
Record AutoWorld : Type := mkAutoWorld {
  aw_post : HttpPost;
  aw_rpc_url_ok : bool;
  aw_receipt : nat -> list byte -> option Json }.

Definition panic_overflow_cast : string := "Integer overflow when casting to u128".

(** [U256::as_u128]: panics above [u128::MAX]. *)
Definition as_u128 (x : Z) : option Z := if x <=? u128_max then Some x else None.

Definition u128_saturating_add (a b : Z) : Z := Z.min (a + b) u128_max.
Definition u128_saturating_mul (a b : Z) : Z := Z.min (a * b) u128_max.
Definition i128_saturate (x : Z) : Z := Z.max i128_min (Z.min x i128_max).

(** [((p as f64) * factor) as u128]. *)
Definition bumped_price (p : Z) (factor : f64) : Z :=
  f64_to_u128 (f64_mul (u128_to_f64 p) factor).

(** [bump_factor.powi(bump_idx as i32 + 1)]; [None] when the [+ 1]
    overflows. *)
Definition bump_factor_at (cfg : AutosubmitConfig) (bump_idx : nat) : option f64 :=
  let b := usize_as_i32 (Z.of_nat bump_idx) in
  if b =? i32_max then None else Some (powi (bump_factor cfg) (b + 1)).

Definition worst_case_term (tx : TypedTransaction) (factor : f64) : option Z :=
  match tx with
  | Eip1559 req =>
      match as_u128 (match e_gas req with Some g => g | None => 21000 end) with
      | None => None
      | Some gas_limit =>
          match e_max_fee_per_gas req with
          | Some m =>
              match as_u128 m with
              | None => None
              | Some base => Some (u128_saturating_mul gas_limit (bumped_price base factor))
              end
          | None => Some (u128_saturating_mul gas_limit (bumped_price 0 factor))
          end
      end
  | Legacy req =>
      match as_u128 (match l_gas req with Some g => g | None => 21000 end) with
      | None => None
      | Some gas_limit =>
          match l_gas_price req with
          | Some p =>
              match as_u128 p with
              | None => None
              | Some base => Some (u128_saturating_mul gas_limit (bumped_price base factor))
              end
          | None => Some (u128_saturating_mul gas_limit (bumped_price 0 factor))
          end
      end
  | Eip2930 _ => Some (u128_saturating_mul 21000 0)
  end.

(** The kill-switch estimate; [None] when an [as_u128] panics. *)
Fixpoint worst_case_cost_from (acc : Z) (txs : list TypedTransaction) (factor : f64) : option Z :=
  match txs with
  | [] => Some acc
  | tx :: rest =>
      match worst_case_term tx factor with
      | None => None
      | Some c => worst_case_cost_from (u128_saturating_add acc c) rest factor
      end
  end.

Definition worst_case_cost (txs : list TypedTransaction) (factor : f64) : option Z :=
  worst_case_cost_from 0 txs factor.

Definition eip1559_with_fees (req : Eip1559Request) (mfp mpp : Z) : Eip1559Request :=
  {| e_to := e_to req; e_value := e_value req; e_data := e_data req;
     e_nonce := e_nonce req; e_gas := e_gas req;
     e_max_priority_fee_per_gas := Some mpp; e_max_fee_per_gas := Some mfp;
     e_chain_id := e_chain_id req |}.

Definition legacy_with_gas_price (req : LegacyRequest) (gp : Z) : LegacyRequest :=
  {| l_to := l_to req; l_value := l_value req; l_data := l_data req;
     l_nonce := l_nonce req; l_gas := l_gas req; l_gas_price := Some gp;
     l_chain_id := l_chain_id req |}.

(** The re-priced transaction of one bump; [None] when an [as_u128]
    panics. *)
Definition bump_tx (tx : TypedTransaction) (factor : f64) : option TypedTransaction :=
  match tx with
  | Eip1559 req =>
      match as_u128 (match e_max_fee_per_gas req with Some m => m | None => 0 end),
            as_u128 (match e_max_priority_fee_per_gas req with Some m => m | None => 0 end) with
      | Some mfp, Some mpp =>
          Some (Eip1559 (eip1559_with_fees req (bumped_price mfp factor) (bumped_price mpp factor)))
      | _, _ => None
      end
  | Legacy req =>
      match as_u128 (match l_gas_price req with Some p => p | None => 0 end) with
      | Some gp => Some (Legacy (legacy_with_gas_price req (bumped_price gp factor)))
      | None => None
      end
  | other => Some other
  end.

(** Re-signing the bumped transactions, in order, stopping at the first
    error. *)
Fixpoint sign_bumped (signer : Signer) (txs : list TypedTransaction) (factor : f64)
  : (list (list byte) + AutoOutcome) * list AutoEvent :=
  match txs with
  | [] => (inl [], [])
  | tx :: rest =>
      match bump_tx tx factor with
      | None => (inr (APanic panic_overflow_cast), [])
      | Some t2 =>
          match signer t2 with
          | Err e => (inr (AErr e), [ESign t2])
          | Ok raw =>
              let '(r, ev) := sign_bumped signer rest factor in
              (match r with inl l => inl (raw :: l) | inr o => inr o end, ESign t2 :: ev)
          end
      end
  end.

(** One iteration of [for bump_idx in 0..max_bumps]: [inl] for a return
    out of the function, [inr] for the events of a completed iteration. *)
Definition bump_attempt (cfg : AutosubmitConfig) (signer : Signer)
    (unsigned : list TypedTransaction) (expected_pnl : option (list Z)) (bump_idx : nat)
  : (AutoOutcome * list AutoEvent) + list AutoEvent :=
  match bump_factor_at cfg bump_idx with
  | None => inl (APanic "attempt to add with overflow", [])
  | Some factor =>
      match worst_case_cost unsigned factor with
      | None => inl (APanic panic_overflow_cast, [])
      | Some worst =>
          if match kill_switch_max_gas_wei cfg with Some m => m <? worst | None => false end
          then inl (AErr "kill-switch: worst-case gas exceeds allowed threshold", []) else
          if match expected_pnl, kill_switch_max_loss_wei cfg with
             | Some pnls, Some max_loss =>
                 let total := fold_left (fun t v => i128_saturate (t + v)) pnls 0 in
                 max_loss <? i128_saturate (u128_as_i128 worst - total)
             | _, _ => false
             end
          then inl (AErr "kill-switch: projected loss exceeds allowed threshold", []) else
          match sign_bumped signer unsigned factor with
          | (inr o, ev) => inl (o, ev)
          | (inl blob, ev) => inr (ev ++ map ESend blob ++ [ESleep 1])
          end
      end
  end.

(** The bump loop; it never returns to polling. *)
Fixpoint bump_loop (cfg : AutosubmitConfig) (signer : Signer) (unsigned : list TypedTransaction)
    (expected_pnl : option (list Z)) (bump_idx remaining : nat) : AutoOutcome * list AutoEvent :=
  match remaining with
  | O => (AErr "exhausted gas bump attempts without inclusion", [])
  | S r =>
      match bump_attempt cfg signer unsigned expected_pnl bump_idx with
      | inl out => out
      | inr ev =>
          let '(o, ev') := bump_loop cfg signer unsigned expected_pnl (S bump_idx) r in
          (o, ev ++ ev')
      end
  end.

(** One polling round over the tracked hashes, appending to
    [receipts_json]. *)
Fixpoint poll_receipts (w : AutoWorld) (round : nat) (hashes : list (list byte))
    (receipts_json : list Json) : list Json * list AutoEvent :=
  match hashes with
  | [] => (receipts_json, [])
  | h :: rest =>
      let rj := match aw_receipt w round h with
                | Some r => receipts_json ++ [r]
                | None => receipts_json
                end in
      let '(rj', ev) := poll_receipts w round rest rj in
      (rj', EGetReceipt h :: ev)
  end.

Record MonitorState : Type := mkMonitorState {
  ms_signed_blob : list (list byte);
  ms_tx_hashes : list (list byte);
  ms_receipts_json : list Json;
  ms_attempts : nat;
  ms_round : nat }.

(** The direct re-broadcast loop of the no-signer branch. *)
Fixpoint rebroadcast (retries : nat) (blob : list (list byte)) : list AutoEvent :=
  match retries with
  | O => []
  | S r => map ESend blob ++ [ESleep 1] ++ rebroadcast r blob
  end.

(** The polling [loop], with [fuel] bounding its iterations. *)
Fixpoint monitor_loop (fuel : nat) (cfg : AutosubmitConfig) (w : AutoWorld)
    (unsigned : option (list TypedTransaction)) (signer : option Signer)
    (expected_pnl : option (list Z)) (max_attempts : nat) (st : MonitorState)
  : AutoOutcome * list AutoEvent :=
  match fuel with
  | O => (ARunning, [])
  | S f =>
      let attempts := S (ms_attempts st) in
      let '(rj, ev1) := poll_receipts w (ms_round st) (ms_tx_hashes st) (ms_receipts_json st) in
      if (length rj =? length (ms_tx_hashes st))%nat then (AOk rj, ev1) else
      let next a :=
        let '(o, ev) := monitor_loop f cfg w unsigned signer expected_pnl max_attempts
                          (mkMonitorState (ms_signed_blob st) (ms_tx_hashes st) rj a (S (ms_round st))) in
        (o, [ESleep (poll_interval_secs cfg)] ++ ev) in
      if (max_attempts <=? attempts)%nat then
        if (max_retries cfg =? 0)%nat then
          (AErr "timed out waiting for inclusion and no retries configured", ev1) else
        match unsigned, signer with
        | Some u, Some s =>
            let '(o, ev2) := bump_loop cfg s u expected_pnl 0 (max_bumps cfg) in (o, ev1 ++ ev2)
        | _, _ =>
            let ev2 := rebroadcast (max_retries cfg) (ms_signed_blob st) in
            let '(o, ev3) := next O in (o, ev1 ++ ev2 ++ ev3)
        end
      else let '(o, ev3) := next attempts in (o, ev1 ++ ev3)
  end.

(** [Autosubmitter::submit_and_monitor_with_rebump]. *)
Definition submit_and_monitor_with_rebump (fuel : nat) (cfg : AutosubmitConfig) (w : AutoWorld)
    (unsigned : option (list TypedTransaction)) (signer : option Signer)
    (signed_blob : list (list byte)) (relay : RelayClient) (expected_pnl : option (list Z))
  : AutoOutcome * list AutoEvent :=
  let ev0 := map ERelay (snd (submit_flashbots_bundle (aw_post w) relay signed_blob None)) in
  if negb (aw_rpc_url_ok w) then (AErr "invalid rpc url", ev0) else
  let tx_hashes := map keccak256 signed_blob in
  let ev1 := map ESend signed_blob in
  if poll_interval_secs cfg =? 0 then (APanic "attempt to divide by zero", ev0 ++ ev1) else
  let max_attempts := Z.to_nat (max_wait_secs cfg / poll_interval_secs cfg) in
  let '(o, ev2) := monitor_loop fuel cfg w unsigned signer expected_pnl max_attempts
                     (mkMonitorState signed_blob tx_hashes [] 0 0) in
  (o, ev0 ++ ev1 ++ ev2).

(** Inputs of the kill-switch scenario: two EIP-1559 transactions with
    [gas_limit = 21000] and [max_fee = 10^11], [bump_factor = 1.25],
    [kill_switch_max_gas_wei = 10^15], otherwise the default
    configuration; the node never includes anything. *)
Definition f64_1_25 : f64 := binary_normalize 53 1024 5 (-2) false.

Definition ks_tx : TypedTransaction :=
  Eip1559 (mkEip1559 None None [] None (Some 21000) None (Some (10 ^ 11)) (Some 1)).

Definition cfg_kill_switch : AutosubmitConfig :=
  mkAutosubmitConfig 3 2 30 f64_1_25 3 (Some (10 ^ 15)) None.

Definition world_never_included : AutoWorld :=
  mkAutoWorld relay_ok true (fun _ _ => None).

Definition signer_const : Signer := fun _ => Ok [Byte.x03].

Definition blob_12 : list (list byte) := [[Byte.x01]; [Byte.x02]].

(** No re-signing, and only transactions of [blob] broadcast. *)
Definition no_bumped_effects (blob : list (list byte)) (evs : list AutoEvent) : bool :=
  forallb (fun e => match e with
                    | ESign _ => false
                    | ESend raw => existsb (bytes_eqb raw) blob
                    | _ => true
                    end) evs.

Definition kill_switch_msg : string := "kill-switch: worst-case gas exceeds allowed threshold".

Definition cfg_poll_zero : AutosubmitConfig :=
  mkAutosubmitConfig 3 0 30 f64_1_25 3 None None.

Definition cfg_one_retry : AutosubmitConfig :=
  mkAutosubmitConfig 1 1 1 f64_1_25 3 None None.

(** [Provider::<Http>::try_from("")] fails: an empty string has no URL
    scheme. *)
Definition world_bad_url : AutoWorld := mkAutoWorld relay_ok false (fun _ _ => None).

(* ================================================================== *)
(** ** Recovery-id search, as stated by the specification *)

(** Recovery id [rid] recovers a key whose address is the expected one. *)
Definition rid_matches (z r s : Z) (expected : option (list byte)) (rid : Z) : bool :=
  match Secp256k1.recover z r s rid with
  | Some pk => address_matches expected (address_of pk)
  | None => false
  end.

(** The first recovery id of [ids] that matches. *)
Fixpoint first_match (z r s : Z) (expected : option (list byte)) (ids : list Z) : option Z :=
  match ids with
  | [] => None
  | rid :: rest => if rid_matches z r s expected rid then Some rid else first_match z r s expected rest
  end.

(** Remotes answering every digest with [r || s], where [r = N/4 + 1] is
    the abscissa of a curve point [R] and [s = 2 r > N/2], as 64 bytes, or
    as 65 bytes followed by [v = 27].  Over the digest [N - r] this is a
    signature under the key [G + 2R]. *)
Definition r_high_s : Z := curve_n / 4 + 1.
Definition sig64_high_s : list byte := Z_to_be 32 r_high_s ++ Z_to_be 32 (2 * r_high_s).
Definition sig65_high_s : list byte := sig64_high_s ++ [Byte.x1b].
Definition remote_high_s64 (_ : list byte) : result (list byte) := Ok sig64_high_s.
Definition remote_high_s (_ : list byte) : result (list byte) := Ok sig65_high_s.
Definition sighash_high_s : list byte := Z_to_be 32 (curve_n - r_high_s).

(* ================================================================== *)
(** ** More of [src/sim.rs] *)

(** A checked [i128] result: [None] is the overflow panic. *)
Definition i128_checked (x : Z) : option Z :=
  if (x <? i128_min) || (i128_max <? x) then None else Some x.

Definition obind {A B : Type} (o : option A) (f : A -> option B) : option B :=
  match o with Some a => f a | None => None end.

(** The loop of [ConfigurableScorer::score] from index [i]: a revert
    subtracts [revert_penalty] and goes on, every receipt subtracts
    [cost_i128 * gas_weight], and [pnls[i] * pnl_weight] is added when
    [i < pnls.len()]; each [-=], [*] and [+=] is checked. *)
Fixpoint configurable_score_loop (revert_penalty gas_weight pnl_weight : Z)
    (expected_pnl : option (list Z)) (i : nat) (total : Z) (receipts : list Receipt)
  : option Z :=
  match receipts with
  | [] => Some total
  | r :: rest =>
      obind (if is_revert r then i128_checked (total - revert_penalty) else Some total)
        (fun t1 =>
      obind (i128_checked (receipt_cost_i128 r * gas_weight)) (fun c =>
      obind (i128_checked (t1 - c)) (fun t2 =>
      obind (match expected_pnl with
             | Some pnls =>
                 match nth_error pnls i with
                 | Some p => obind (i128_checked (p * pnl_weight)) (fun q => i128_checked (t2 + q))
                 | None => Some t2
                 end
             | None => Some t2
             end) (fun t3 =>
      configurable_score_loop revert_penalty gas_weight pnl_weight expected_pnl (S i) t3 rest))))
  end.

(** [ConfigurableScorer::score]. *)
Definition configurable_score (revert_penalty gas_weight pnl_weight : Z)
    (receipts : list Receipt) (expected_pnl : option (list Z)) : option Z :=
  configurable_score_loop revert_penalty gas_weight pnl_weight expected_pnl 0 0 receipts.

(** [(nonce, score, signed_blob, receipts)], the tuple
    [choose_best_nonce_strategy] returns. *)
Definition BestChoice : Type := (Z * Z * list (list byte) * list Receipt)%type.

Definition best_of (o : Outcome) : BestChoice :=
  let '(nonce, score, receipts, blob) := o in (nonce, score, blob, receipts).

Definition outcome_score (o : Outcome) : Z := snd (fst (fst o)).

(** The selection loop: an outcome replaces the best one only when its
    score is strictly greater. *)
Fixpoint choose_best_loop (best : option BestChoice) (results : list Outcome)
  : option BestChoice :=
  match results with
  | [] => best
  | o :: rest =>
      let best' :=
        match best with
        | None => Some (best_of o)
        | Some (_, best_score, _, _) =>
            if best_score <? outcome_score o then Some (best_of o) else best
        end in
      choose_best_loop best' rest
  end.

(** [Simulator::choose_best_nonce_strategy] over the sweep; [None] when the
    sweep hangs or panics (the sweep itself never returns an error). *)
Definition choose_best_nonce_strategy (env : SweepEnv) (unsigned_txs : list TypedTransaction)
    (base_nonce : Z) (nonce_range concurrency : nat) (completion_order : list nat)
  : option (option BestChoice) * list SweepEvent :=
  let '(r, ev) := simulate_unsigned_bundle_try_nonces_with_scorer env unsigned_txs base_nonce
                    nonce_range concurrency completion_order in
  match r with
  | SweepHang | SweepPanic => (None, ev)
  | SweepDone results => (Some (choose_best_loop None results), ev)
  end.

(** How the node answers one direct submission of
    [autosubmit_signed_bundle]: [send_raw_transaction] fails, no answer
    within 10 s, the pending transaction fails with a provider error, or it
    resolves to an optional receipt (as [serde_json::Value]). *)
Inductive DirectVerdict : Type :=
| DSendFailed
| DTimeout
| DProviderError (msg : string)
| DReceipt (rc : option Json).

Record DirectWorld : Type := mkDirectWorld {
  dw_post : HttpPost;
  dw_rpc_url_ok : bool;
  dw_verdict : list byte -> DirectVerdict }.

(** The sequential send loop; a [None] receipt is skipped. *)
Fixpoint direct_submit_loop (verdict : list byte -> DirectVerdict) (raws : list (list byte))
    (receipts : list Json) : result (list Json) * list AutoEvent :=
  match raws with
  | [] => (Ok receipts, [])
  | raw :: rest =>
      match verdict raw with
      | DSendFailed => (Err "send_raw failed", [ESend raw])
      | DTimeout => (Err "timeout awaiting tx", [ESend raw])
      | DProviderError e => (Err e, [ESend raw])
      | DReceipt rc =>
          let receipts' := match rc with Some r => receipts ++ [r] | None => receipts end in
          let '(res, ev) := direct_submit_loop verdict rest receipts' in
          (res, ESend raw :: ev)
      end
  end.

(** [Simulator::autosubmit_signed_bundle]. *)
Definition autosubmit_signed_bundle (w : DirectWorld) (signed_blob : list (list byte))
    (relay_client : RelayClient) : result Json * list AutoEvent :=
  let '(r, reqs) := submit_flashbots_bundle (dw_post w) relay_client signed_blob None in
  let ev0 := map ERelay reqs in
  match r with
  | Ok resp => (Ok (JObj [("relay"%string, resp)]), ev0)
  | Err _ =>
      if negb (dw_rpc_url_ok w) then (Err "invalid rpc url for autosubmit", ev0) else
      let '(res, ev1) := direct_submit_loop (dw_verdict w) signed_blob [] in
      (match res with
       | Ok rs => Ok (JObj [("direct_receipts"%string, JArr rs)])
       | Err e => Err e
       end, ev0 ++ ev1)
  end.

Definition is_eip1559 (tx : TypedTransaction) : bool :=
  match tx with Eip1559 _ => true | _ => false end.

Definition count_reverts (rs : list Receipt) : Z := Z.of_nat (length (filter is_revert rs)).

Definition receipt_revert : Receipt := mkReceipt (Some 0%N) (Some 50000%N) (Some 1000000000%N).

(** A node that mines every transaction with [receipt_ok]. *)
Definition world_all_mined : NodeWorld := mkNodeWorld true true true true (fun _ => Mined receipt_ok).

(** Three outcomes sorted by nonce, the last two tied at the top score. *)
Definition outcomes_tied : list Outcome :=
  [(5, -3, [], []); (6, 4, [], []); (7, 4, [], [])].

Definition receipt_json : Json := JObj [("status"%string, JStr "0x1")].

Definition direct_world_second_lost : DirectWorld :=
  mkDirectWorld relay_ok true
    (fun raw => if bytes_eqb raw [Byte.x01] then DReceipt (Some receipt_json) else DReceipt None).

Definition direct_world_second_refused : DirectWorld :=
  mkDirectWorld relay_ok true
    (fun raw => if bytes_eqb raw [Byte.x01] then DReceipt (Some receipt_json) else DSendFailed).

(** A node that returns a receipt for the transaction [0x01] in every
    polling round and never one for any other transaction. *)
Definition world_first_only : AutoWorld :=
  mkAutoWorld relay_ok true
    (fun _ h => if bytes_eqb h (keccak256 [Byte.x01]) then Some receipt_json else None).

(** A node that has every transaction's receipt from the first round on. *)
Definition world_all_included : AutoWorld :=
  mkAutoWorld relay_ok true (fun _ _ => Some receipt_json).

Definition cfg_no_retries : AutosubmitConfig :=
  mkAutosubmitConfig 0 2 5 f64_1_25 3 None None.

(* ================================================================== *)
(** ** Hex and the head-notification parser ([src/tx.rs], [src/data.rs]) *)

(** [tx::bundle_from_signed_txs]. *)
Definition bundle_from_signed_txs (signed : list (list byte)) : Json :=
  JArr (map (fun s => JStr (String.append "0x" (hex_encode s))) signed).

(** [char::to_digit(16)]: [0-9], [a-f], [A-F]. *)
Definition hex_val (c : ascii) : option Z :=
  let n := Z.of_nat (nat_of_ascii c) in
  if (48 <=? n) && (n <=? 57) then Some (n - 48)
  else if (97 <=? n) && (n <=? 102) then Some (n - 87)
  else if (65 <=? n) && (n <=? 70) then Some (n - 55)
  else None.

(** [hex::decode] (used by [MockKms::sign] on its secret): an even number of
    hexadecimal digits, two per byte, either case. *)
Fixpoint hex_decode_chars (cs : list ascii) : option (list byte) :=
  match cs with
  | [] => Some []
  | [_] => None
  | a :: b :: rest =>
      match hex_val a, hex_val b, hex_decode_chars rest with
      | Some x, Some y, Some r => Some (Z_to_byte (16 * x + y) :: r)
      | _, _, _ => None
      end
  end.

Definition hex_decode (s : string) : option (list byte) := hex_decode_chars (list_ascii_of_string s).

(** [str::strip_prefix("0x")]. *)
Definition strip_prefix_0x (s : string) : option string :=
  match s with
  | String c0 (String c1 rest) => if Ascii.eqb c0 "0" && Ascii.eqb c1 "x" then Some rest else None
  | _ => None
  end.

(** Reading a JSON array of ["0x"]-prefixed hex strings back into bytes. *)
Fixpoint decode_hex_items (items : list Json) : option (list (list byte)) :=
  match items with
  | [] => Some []
  | JStr s :: rest =>
      match obind (strip_prefix_0x s) hex_decode, decode_hex_items rest with
      | Some b, Some bs => Some (b :: bs)
      | _, _ => None
      end
  | _ :: _ => None
  end.

Definition decode_hex_array (v : Json) : option (list (list byte)) :=
  match v with JArr items => decode_hex_items items | _ => None end.

(** [Value::get(key)] on an object; [None] on any other value. *)
Definition json_get (k : string) (v : Json) : option Json :=
  match v with
  | JObj fields =>
      match find (fun kv => String.eqb (fst kv) k) fields with
      | Some (_, x) => Some x
      | None => None
      end
  | _ => None
  end.

(** [str::trim_start_matches("0x")]: removes every leading ["0x"]. *)
Fixpoint trim_start_0x (cs : list ascii) : list ascii :=
  match cs with
  | c0 :: c1 :: rest => if Ascii.eqb c0 "0" && Ascii.eqb c1 "x" then trim_start_0x rest else cs
  | _ => cs
  end.

(** The digit loop of [u64::from_str_radix(_, 16)]: checked
    [result * 16 + digit]. *)
Fixpoint u64_digits_16 (cs : list ascii) (acc : Z) : option Z :=
  match cs with
  | [] => Some acc
  | c :: rest =>
      match hex_val c with
      | None => None
      | Some d => let v := acc * 16 + d in if u64_max <? v then None else u64_digits_16 rest v
      end
  end.

(** [u64::from_str_radix(_, 16)]: empty input, a lone sign, an invalid
    digit and an overflow are errors; one leading ['+'] is allowed. *)
Definition u64_from_str_radix_16 (s : string) : option Z :=
  match list_ascii_of_string s with
  | [] => None
  | c :: rest =>
      if (Ascii.eqb c "+" || Ascii.eqb c "-") && (match rest with [] => true | _ => false end)
      then None
      else if Ascii.eqb c "+" then u64_digits_16 rest 0
      else u64_digits_16 (c :: rest) 0
  end.

(** [number.as_str()], then
    [u64::from_str_radix(number_str.trim_start_matches("0x"), 16)]. *)
Definition hex_quantity (number : Json) : option Z :=
  match number with
  | JStr s => u64_from_str_radix_16 (string_of_list_ascii (trim_start_0x (list_ascii_of_string s)))
  | _ => None
  end.

(** The block number a [newHeads] notification yields in
    [MarketDataClient::start]: [params.result.number] read by
    [hex_quantity]; [None] when the handler sends no quote. *)
Definition head_block_number (v : Json) : option Z :=
  obind (json_get "params" v) (fun params =>
  obind (json_get "result" params) (fun result =>
  obind (json_get "number" result) hex_quantity)).

(** The requests of a relay call carry the bundle: one POST to [url] whose
    [params[0].txs] reads back as [signed_txs] and whose
    [params[0].blockNumber] is present exactly when a block number is
    given, and then reads back as it. *)
Definition carries_bundle (url : string) (signed_txs : list (list byte)) (block_number : option Z)
    (reqs : list HttpRequest) : Prop :=
  exists req p,
    reqs = [req] /\ req_url req = url /\ json_get "params" (req_body req) = Some (JArr [p]) /\
    obind (json_get "txs" p) decode_hex_array = Some signed_txs /\
    match block_number with
    | None => json_get "blockNumber" p = None
    | Some n => obind (json_get "blockNumber" p) hex_quantity = Some n
    end.

Definition head_notification (number : string) : Json :=
  JObj [("jsonrpc"%string, JStr "2.0"); ("method"%string, JStr "eth_subscription");
        ("params"%string, JObj [("result"%string, JObj [("number"%string, JStr number)])])].

Definition pnl_slice (expected_pnl : option (list Z)) (i len : nat) : list Z :=
  match expected_pnl with Some pnls => firstn len (skipn i pnls) | None => [] end.

Definition direct_receipts_of (verdict : list byte -> DirectVerdict) (raws : list (list byte))
  : list Json :=
  flat_map (fun raw => match verdict raw with DReceipt (Some r) => [r] | _ => [] end) raws.

Definition err_or_panic (o : AutoOutcome) : Prop :=
  match o with AErr _ | APanic _ => True | _ => False end.

Definition hex_char (c : ascii) : Prop := exists d, 0 <= d < 16 /\ c = hex_digit d.

(* ================================================================== *)
(** ** The price scanner ([src/scanner.rs]) *)

Definition f64_add (x y : f64) : f64 := SFadd 53 1024 x y.
Definition f64_sub (x y : f64) : f64 := SFsub 53 1024 x y.
(** [a >= b]: false when either side is NaN. *)
Definition f64_ge (x y : f64) : bool :=
  match SFcompare x y with Some Gt | Some Eq => true | _ => false end.
(** The neutral element of [<f64 as Sum>]. *)
Definition f64_neg_zero : f64 := S754_zero true.
Definition f64_100 : f64 := binary_normalize 53 1024 100 0 false.

(** [data::Quote]. *)
Record Quote : Type := mkQuote { q_pair : string; q_price : f64; q_timestamp_ms : Z }.

Record Scanner : Type := mkScanner {
  window_size : nat; threshold_pct : f64; prices : list f64 }.

Definition scanner_new (window_size : nat) (threshold_pct : f64) : Scanner :=
  mkScanner window_size threshold_pct [].

(** The values [format!("opportunity:{} price {:.4} avg {:.4} pct {:+.3}%", ...)]
    prints: the pair, the price, the average and [pct * 100.0]. *)
Record Opportunity : Type := mkOpportunity {
  op_pair : string; op_price : f64; op_avg : f64; op_pct100 : f64 }.

(** [Scanner::process_quote]; [None] is a panic of [Vec::remove(0)] on an
    empty vector. *)
Definition process_quote (sc : Scanner) (q : Quote) : option (Scanner * option Opportunity) :=
  let removed :=
    if (length (prices sc) =? window_size sc)%nat then
      match prices sc with [] => None | _ :: rest => Some rest end
    else Some (prices sc) in
  match removed with
  | None => None
  | Some ps =>
      let ps' := ps ++ [q_price q] in
      let sc' := mkScanner (window_size sc) (threshold_pct sc) ps' in
      if (length ps' <? window_size sc)%nat then Some (sc', None) else
      let avg := f64_div (fold_left f64_add ps' f64_neg_zero) (u128_to_f64 (Z.of_nat (length ps'))) in
      let pct := f64_div (f64_sub (q_price q) avg) avg in
      if f64_ge (SFabs pct) (threshold_pct sc)
      then Some (sc', Some (mkOpportunity (q_pair q) (q_price q) avg (f64_mul pct f64_100)))
      else Some (sc', None)
  end.

(** The scanner task of [run]: every received quote goes through
    [process_quote]; the results in order. *)
Fixpoint scan_quotes (sc : Scanner) (qs : list Quote) : option (Scanner * list (option Opportunity)) :=
  match qs with
  | [] => Some (sc, [])
  | q :: rest =>
      match process_quote sc q with
      | None => None
      | Some (sc', out) =>
          match scan_quotes sc' rest with
          | None => None
          | Some (sc'', outs) => Some (sc'', out :: outs)
          end
      end
  end.

(** The last [k] elements of a list (all of it when shorter). *)
Definition lastn {A} (k : nat) (l : list A) : list A := skipn (length l - k) l.

Definition quote_at (p : f64) : Quote := mkQuote "ETH/USDC" p 0.

(* ================================================================== *)
(** ** Base64 decoding (the relay's side of [submit_bundle]) *)

(** The value of a character of the standard alphabet. *)
Definition base64_val (c : ascii) : option Z :=
  let n := Z.of_nat (nat_of_ascii c) in
  if (65 <=? n) && (n <=? 90) then Some (n - 65)
  else if (97 <=? n) && (n <=? 122) then Some (n - 71)
  else if (48 <=? n) && (n <=? 57) then Some (n + 4)
  else if n =? 43 then Some 62
  else if n =? 47 then Some 63
  else None.

(** Padded standard base64: four characters give three bytes, or fewer
    before ["="] padding at the end. *)
Fixpoint base64_decode_chars (cs : list ascii) : option (list byte) :=
  match cs with
  | [] => Some []
  | c0 :: c1 :: c2 :: c3 :: rest =>
      if Ascii.eqb c3 "=" then
        match rest with
        | _ :: _ => None
        | [] =>
            if Ascii.eqb c2 "=" then
              match base64_val c0, base64_val c1 with
              | Some d0, Some d1 => Some [Z_to_byte ((d0 * 262144 + d1 * 4096) / 65536)]
              | _, _ => None
              end
            else
              match base64_val c0, base64_val c1, base64_val c2 with
              | Some d0, Some d1, Some d2 =>
                  let n := d0 * 262144 + d1 * 4096 + d2 * 64 in
                  Some [Z_to_byte (n / 65536); Z_to_byte (n / 256)]
              | _, _, _ => None
              end
        end
      else
        match base64_val c0, base64_val c1, base64_val c2, base64_val c3, base64_decode_chars rest with
        | Some d0, Some d1, Some d2, Some d3, Some r =>
            let n := d0 * 262144 + d1 * 4096 + d2 * 64 + d3 in
            Some (Z_to_byte (n / 65536) :: Z_to_byte (n / 256) :: Z_to_byte n :: r)
        | _, _, _, _, _ => None
        end
  | _ => None
  end.

Definition base64_decode (s : string) : option (list byte) :=
  base64_decode_chars (list_ascii_of_string s).

(* ================================================================== *)
(** * Theorems *)

Example keccak256_empty :
  keccak256 [] = hex_of "c5d2460186f7233c927e7db2dcc703c0e500b653ca82273b7bfad8045d85a470".
Proof. vm_compute. reflexivity. Qed.

Example address_of_generator :
  address_of Secp256k1.G = hex_of "7E5F4552091A69125d5DfCb7b8C2659029395Bdf".
Proof. vm_compute. reflexivity. Qed.

Example address_of_key_2 :
  address_of (Secp256k1.lin2 2 Secp256k1.G 0 Secp256k1.Inf)
  = hex_of "2B5AD5c4795c026514f8317c7a215E218DcCD6cF".
Proof. vm_compute. reflexivity. Qed.


(** A concrete DER signature whose matching recovery id is 2: the point
    [R] has abscissa [7 + N] (which is below [p]), while [7] itself is not the
    abscissa of any curve point, so recovery ids 0 and 1 fail. *)
Example c3_probe :
  Secp256k1.lift_x 7 false = None /\ Secp256k1.lift_x 7 true = None.
Proof. vm_compute. split; reflexivity. Qed.

(* ------------------------------------------------------------------ *)
(** ** Simulation *)

(** C1 (code_bug): [simulate_signed_bundle] on the bundle [[0x01]; [0x02]]
    where the node mines the first transaction and refuses the second: the
    call returns the broadcast error while the node keeps the first
    transaction and the snapshot, i.e. the state at [evm_snapshot] time is
    not restored on this exit path. *)
Theorem simulate_signed_bundle_error_skips_revert :
  simulate_signed_bundle world_second_refused fresh_node [[Byte.x01]; [Byte.x02]] None
  = (Err "send_raw failed", mkNode [[Byte.x01]] None [(0, ([], None))])
  /\ node_view (mkNode [[Byte.x01]] None [(0, ([], None))]) <> node_view fresh_node.
Proof.
  split.
  - vm_compute. reflexivity.
  - unfold node_view; simpl. discriminate.
Qed.

(** C4 (code_bug): the task of offset 0 with base nonce 100 on two legacy
    transactions of nonce 7 signs both with nonce 7: [set_nonce_tx] leaves
    non-EIP-1559 transactions unchanged, so the bundle does not use the
    nonces 100, 101. *)
Theorem nonce_task_legacy_keeps_nonce :
  nonce_task nonce_echo_env [legacy_nonce_7; legacy_nonce_7] 100 0
  = (TOk (100, 0, [receipt_ok], [Z_to_be 8 7; Z_to_be 8 7]),
     [SimulateCall 0 [Z_to_be 8 7; Z_to_be 8 7]])
  /\ Z_to_be 8 7 <> Z_to_be 8 100.
Proof.
  split.
  - vm_compute. reflexivity.
  - vm_compute. discriminate.
Qed.

(* ------------------------------------------------------------------ *)
(** ** Nonce sweep *)

Lemma insert_by_nonce_perm : forall o l, Permutation (insert_by_nonce o l) (o :: l).
Proof.
  intros o l; induction l as [|o' l IH]; simpl; [reflexivity|].
  destruct (outcome_nonce o' <=? outcome_nonce o); [|reflexivity].
  rewrite IH. apply perm_swap.
Qed.

Lemma sort_by_nonce_perm_acc : forall l acc,
  Permutation (fold_left (fun acc o => insert_by_nonce o acc) l acc) (acc ++ l).
Proof.
  induction l as [|o l IH]; intros acc; simpl.
  - rewrite app_nil_r. reflexivity.
  - rewrite IH, insert_by_nonce_perm. apply Permutation_middle.
Qed.

Lemma sort_by_nonce_perm : forall l, Permutation (sort_by_nonce l) l.
Proof. intros l. apply (sort_by_nonce_perm_acc l []). Qed.

Definition nonce_le (a b : Outcome) : Prop := outcome_nonce a <= outcome_nonce b.
Definition nonce_lt (a b : Outcome) : Prop := outcome_nonce a < outcome_nonce b.

Lemma insert_by_nonce_sorted : forall o l,
  Sorted nonce_le l -> Sorted nonce_le (insert_by_nonce o l).
Proof.
  intros o l; induction l as [|o' l IH]; intros Hs; simpl.
  - constructor; constructor.
  - inversion Hs as [|? ? Hl Hhd]; subst.
    destruct (outcome_nonce o' <=? outcome_nonce o) eqn:E.
    + apply Z.leb_le in E. constructor; [apply IH, Hl|].
      destruct l as [|o'' l]; simpl; [constructor; exact E|].
      inversion Hhd; subst.
      destruct (outcome_nonce o'' <=? outcome_nonce o); constructor; assumption.
    + apply Z.leb_gt in E. constructor; [exact Hs|]. constructor. unfold nonce_le; lia.
Qed.

Lemma sort_by_nonce_sorted : forall l, Sorted nonce_le (sort_by_nonce l).
Proof.
  intros l. unfold sort_by_nonce.
  assert (H : forall acc, Sorted nonce_le acc ->
            Sorted nonce_le (fold_left (fun acc o => insert_by_nonce o acc) l acc)).
  { induction l as [|o l IH]; intros acc Ha; simpl; [exact Ha|].
    apply IH, insert_by_nonce_sorted, Ha. }
  apply H. constructor.
Qed.

Lemma sorted_le_nodup_lt : forall l,
  Sorted nonce_le l -> NoDup (map outcome_nonce l) -> Sorted nonce_lt l.
Proof.
  intros l Hs Hnd.
  apply StronglySorted_Sorted.
  apply Sorted_StronglySorted in Hs;
    [|intros x y z; unfold nonce_le; lia].
  induction Hs as [|a l Hs IH Hall]; constructor.
  - inversion Hnd; auto.
  - inversion Hnd as [|? ? Hnotin _]; subst.
    rewrite Forall_forall in *. intros x Hx.
    specialize (Hall x Hx). unfold nonce_le, nonce_lt in *.
    assert (outcome_nonce a <> outcome_nonce x); [|lia].
    intros Heq. apply Hnotin. rewrite Heq. apply in_map, Hx.
Qed.

Lemma nonce_task_nonce : forall env unsigned base k o,
  fst (nonce_task env unsigned base k) = TOk o -> outcome_nonce o = base + Z.of_nat k.
Proof.
  intros env unsigned base k o H. unfold nonce_task in H.
  destruct (u64_max <? base + Z.of_nat k); [discriminate|].
  destruct (sign_bundle (sw_sign env) (base + Z.of_nat k) unsigned); try discriminate.
  simpl in H. destruct (sw_simulate env k a) as [rs|]; [|discriminate].
  destruct (sw_score env rs a); inversion H; reflexivity.
Qed.

Lemma collect_nonces_in : forall env unsigned base order x,
  In x (map outcome_nonce
          (collect_outcomes (map (fun k => fst (nonce_task env unsigned base k)) order))) ->
  exists k, In k order /\ x = base + Z.of_nat k.
Proof.
  intros env unsigned base order x; induction order as [|k order IH]; simpl; [tauto|].
  destruct (fst (nonce_task env unsigned base k)) eqn:E; simpl.
  - intros [Hx|Hx].
    + exists k. split; [left; reflexivity|]. rewrite <- Hx. eapply nonce_task_nonce; eauto.
    + destruct (IH Hx) as [k' [Hk' ->]]. exists k'. auto.
  - intros Hx. destruct (IH Hx) as [k' [Hk' ->]]. exists k'. auto.
  - intros Hx. destruct (IH Hx) as [k' [Hk' ->]]. exists k'. auto.
Qed.

Lemma collect_nonces_nodup : forall env unsigned base order,
  NoDup order ->
  NoDup (map outcome_nonce
           (collect_outcomes (map (fun k => fst (nonce_task env unsigned base k)) order))).
Proof.
  intros env unsigned base order Hnd; induction Hnd as [|k order Hk Hnd IH]; simpl;
    [constructor|].
  destruct (fst (nonce_task env unsigned base k)) eqn:E; simpl; auto.
  constructor; auto.
  rewrite (nonce_task_nonce _ _ _ _ _ E).
  intros Hin. apply collect_nonces_in in Hin. destruct Hin as [k' [Hk' Heq]].
  assert (k = k') by lia. subst. contradiction.
Qed.

Lemma collect_all_ok : forall env unsigned base order,
  (forall k, In k order -> exists o, fst (nonce_task env unsigned base k) = TOk o) ->
  map outcome_nonce
    (collect_outcomes (map (fun k => fst (nonce_task env unsigned base k)) order))
  = map (fun k => base + Z.of_nat k) order.
Proof.
  intros env unsigned base order; induction order as [|k order IH]; intros Hall; simpl;
    [reflexivity|].
  destruct (Hall k (or_introl eq_refl)) as [o Ho]. rewrite Ho. simpl.
  rewrite (nonce_task_nonce _ _ _ _ _ Ho). f_equal.
  apply IH. intros k' Hk'. apply Hall. right. exact Hk'.
Qed.

(** C7 (counterexample): [Semaphore::new(concurrency)] panics before any
    offset is tried when [concurrency > MAX_PERMITS], even with
    [nonce_range = 0]. *)
Lemma sweep_too_many_permits :
  simulate_unsigned_bundle_try_nonces_with_scorer nonce_echo_env [legacy_nonce_7] 100 0
    (Z.to_nat (max_permits + 1)) [] = (SweepPanic, []).
Proof.
  assert (Hm : 0 <= max_permits) by (unfold max_permits; vm_compute; discriminate).
  unfold simulate_unsigned_bundle_try_nonces_with_scorer.
  rewrite Z2Nat.id by lia. rewrite (proj2 (Z.ltb_lt _ _)) by lia. reflexivity.
Qed.

(** C7: let [completion_order] be the order in which the tasks finish (a
    permutation of the offsets).  Above [MAX_PERMITS] the sweep panics and
    contacts no node.  Otherwise, with no permit and at least one offset it
    never returns; with [nonce_range = 0] it returns [[]] without any node
    call; and with at least one permit it returns the successful outcomes
    (a failing offset, including one whose task panics, is skipped),
    strictly sorted by nonce, and when every offset succeeds there are
    exactly [nonce_range] of them, with the nonces [base_nonce + k] for
    [k < nonce_range]. *)
Theorem nonce_sweep_sorted_complete :
  forall env unsigned base_nonce nonce_range concurrency completion_order,
    Permutation completion_order (seq 0 nonce_range) ->
    (max_permits < Z.of_nat concurrency ->
       simulate_unsigned_bundle_try_nonces_with_scorer env unsigned base_nonce
         nonce_range concurrency completion_order = (SweepPanic, [])) /\
    (Z.of_nat concurrency <= max_permits ->
     (concurrency = 0%nat -> (0 < nonce_range)%nat ->
        simulate_unsigned_bundle_try_nonces_with_scorer env unsigned base_nonce
          nonce_range concurrency completion_order = (SweepHang, [])) /\
     (nonce_range = 0%nat ->
        simulate_unsigned_bundle_try_nonces_with_scorer env unsigned base_nonce
          nonce_range concurrency completion_order = (SweepDone [], [])) /\
     ((0 < concurrency)%nat ->
        exists l,
          fst (simulate_unsigned_bundle_try_nonces_with_scorer env unsigned base_nonce
                 nonce_range concurrency completion_order) = SweepDone l /\
          Permutation l (collect_outcomes
                           (map (fun k => fst (nonce_task env unsigned base_nonce k))
                                completion_order)) /\
          Sorted nonce_lt l /\
          ((forall k, (k < nonce_range)%nat ->
              exists o, fst (nonce_task env unsigned base_nonce k) = TOk o) ->
           length l = nonce_range /\
           Permutation (map outcome_nonce l)
                       (map (fun k => base_nonce + Z.of_nat k) (seq 0 nonce_range))))).
Proof.
  intros env unsigned base n conc order Hperm.
  unfold simulate_unsigned_bundle_try_nonces_with_scorer. split.
  { intros Hc. rewrite (proj2 (Z.ltb_lt _ _) Hc). reflexivity. }
  intros Hc. rewrite (proj2 (Z.ltb_ge _ _) Hc). split; [|split].
  - intros -> Hn. destruct n; [lia|]. reflexivity.
  - intros ->. simpl in Hperm. apply Permutation_sym, Permutation_nil in Hperm.
    subst order. rewrite andb_false_r. reflexivity.
  - intros Hc0.
    replace ((conc =? 0)%nat && (0 <? n)%nat) with false
      by (destruct conc; [lia|reflexivity]).
    rewrite map_map. simpl.
    eexists. split; [reflexivity|].
    set (outs := collect_outcomes (map (fun k => fst (nonce_task env unsigned base k)) order)).
    assert (Hnd : NoDup order)
      by (apply (Permutation_NoDup (Permutation_sym Hperm)), seq_NoDup).
    split; [apply sort_by_nonce_perm|]. split.
    + apply sorted_le_nodup_lt; [apply sort_by_nonce_sorted|].
      apply (Permutation_NoDup (Permutation_map outcome_nonce
                                  (Permutation_sym (sort_by_nonce_perm outs)))).
      apply collect_nonces_nodup, Hnd.
    + intros Hall.
      assert (Hall' : forall k, In k order ->
                exists o, fst (nonce_task env unsigned base k) = TOk o).
      { intros k Hk. apply Hall.
        apply (Permutation_in _ Hperm), in_seq in Hk. lia. }
      pose proof (collect_all_ok _ _ _ _ Hall') as Hmap. fold outs in Hmap.
      split.
      * rewrite (Permutation_length (sort_by_nonce_perm outs)).
        rewrite <- (length_map outcome_nonce), Hmap, length_map.
        rewrite (Permutation_length Hperm), length_seq. reflexivity.
      * rewrite (Permutation_map outcome_nonce (sort_by_nonce_perm outs)), Hmap.
        apply Permutation_map, Hperm.
Qed.

Lemma nonce_sweep_sorted_complete_witness :
  Permutation [2; 0; 1]%nat (seq 0 3) /\
  Z.of_nat 2 <= max_permits /\
  (0 < 2)%nat /\
  exists l,
    fst (simulate_unsigned_bundle_try_nonces_with_scorer nonce_echo_env [legacy_nonce_7] 100
           3 2 [2; 0; 1]%nat) = SweepDone l /\
    Sorted nonce_lt l /\ length l = 3%nat.
Proof.
  assert (Hp : Permutation [2; 0; 1]%nat (seq 0 3)).
  { simpl. apply perm_trans with [0; 2; 1]%nat; [apply perm_swap|].
    apply perm_skip, perm_swap. }
  assert (Hm : Z.of_nat 2 <= max_permits) by (unfold max_permits; vm_compute; discriminate).
  split; [exact Hp|]. split; [exact Hm|]. split; [lia|].
  destruct (nonce_sweep_sorted_complete nonce_echo_env [legacy_nonce_7] 100 3 2 [2; 0; 1]%nat Hp)
    as [_ H].
  destruct H as [_ [_ H]]; [exact Hm|].
  destruct (H ltac:(lia)) as [l [Hl [_ [Hs Hall]]]].
  exists l. split; [exact Hl|]. split; [exact Hs|].
  apply Hall. intros k Hk.
  destruct k as [|[|[|k]]]; [eexists; vm_compute; reflexivity..|lia].
Defined.

(* ------------------------------------------------------------------ *)
(** ** Scoring *)

Lemma receipt_cost_nonneg : forall r, 0 <= receipt_cost r.
Proof.
  intros r. unfold receipt_cost, u256_saturating_mul, unwrap_or_default, u256_max.
  destruct (rc_gas_used r), (rc_effective_gas_price r); lia.
Qed.

Lemma receipt_cost_i128_clamped : forall r,
  receipt_cost r <= i128_max \/ u128_max < receipt_cost r ->
  receipt_cost_i128 r = clamped_cost r.
Proof.
  intros r H. unfold receipt_cost_i128, clamped_cost. fold (receipt_cost r).
  unfold u128_as_i128, u128_max, i128_max in *.
  destruct H as [H|H].
  - rewrite (proj2 (Z.leb_le _ _) H).
    rewrite (proj2 (Z.leb_le _ (2 ^ 128 - 1))) by lia. reflexivity.
  - rewrite (proj2 (Z.leb_gt _ _) H). rewrite (proj2 (Z.leb_gt _ _)) by lia. reflexivity.
Qed.

Lemma clamped_cost_nonneg : forall r, 0 <= clamped_cost r.
Proof.
  intros r. unfold clamped_cost. pose proof (receipt_cost_nonneg r).
  destruct (receipt_cost r <=? i128_max); [lia|].
  unfold i128_max. now vm_compute.
Qed.

Lemma sum_Z_cons : forall x l, sum_Z (x :: l) = x + sum_Z l.
Proof. reflexivity. Qed.

Lemma gas_cost_score_loop_spec : forall rs total,
  (forall r, In r (before_revert rs) ->
     receipt_cost r <= i128_max \/ u128_max < receipt_cost r) ->
  i128_min <= total <= 0 ->
  i128_min <= total - sum_Z (map clamped_cost (before_revert rs)) ->
  gas_cost_score_loop total rs =
  Some (if existsb is_revert rs then Z.quot i128_min 4
        else total - sum_Z (map clamped_cost rs)).
Proof.
  induction rs as [|r rs IH]; intros total Hr Ht Hs; simpl.
  - f_equal. lia.
  - destruct (is_revert r) eqn:Er; [reflexivity|].
    cbn [before_revert] in Hr, Hs. rewrite Er in Hr, Hs. cbn [map] in Hs.
    rewrite sum_Z_cons in Hs.
    rewrite (receipt_cost_i128_clamped r (Hr r (or_introl eq_refl))).
    pose proof (clamped_cost_nonneg r) as Hc.
    assert (Hsum : 0 <= sum_Z (map clamped_cost (before_revert rs))).
    { clear. induction (before_revert rs) as [|x l IHl]; simpl; [lia|].
      pose proof (clamped_cost_nonneg x). lia. }
    replace ((total - clamped_cost r <? i128_min) || (i128_max <? total - clamped_cost r))
      with false by (unfold i128_min, i128_max in *; symmetry;
                     apply orb_false_iff; split; apply Z.ltb_ge; lia).
    rewrite IH.
    + destruct (existsb is_revert rs); [reflexivity|]. f_equal.
      cbn [orb]. lia.
    + intros r' Hr'. apply Hr. right. exact Hr'.
    + unfold i128_min in *. lia.
    + lia.
Qed.

(** C9 (corrected): a receipt whose cost [2^128] exceeds [u128::MAX] is
    counted as [i128::MAX / 8], so the score is [-(i128::MAX / 8)], not the
    negated cost saturated to the [i128] bounds ([i128::MIN]). *)
Lemma gas_cost_score_huge_receipt :
  gas_cost_score [receipt_huge] = Some (- Z.quot i128_max 8) /\
  - Z.quot i128_max 8 <> Z.max i128_min (Z.min i128_max (- (2 ^ 128))).
Proof. split; vm_compute; [reflexivity | discriminate]. Qed.

(** C9 amended: when the receipts before the first revert each cost at most
    [i128::MAX] or more than [u128::MAX], and their clamped costs sum to at
    most [2^127] (no [i128] overflow), [GasCostScorer::score] returns
    [i128::MIN / 4] if some receipt has status 0, and otherwise minus the sum
    of the costs, a cost above [u128::MAX] counting as [i128::MAX / 8]. *)
Theorem gas_cost_score_spec : forall receipts,
  (forall r, In r (before_revert receipts) ->
     receipt_cost r <= i128_max \/ u128_max < receipt_cost r) ->
  sum_Z (map clamped_cost (before_revert receipts)) <= 2 ^ 127 ->
  gas_cost_score receipts =
  Some (if existsb is_revert receipts then Z.quot i128_min 4
        else - sum_Z (map clamped_cost receipts)).
Proof.
  intros rs Hr Hs. unfold gas_cost_score.
  rewrite gas_cost_score_loop_spec; auto.
  - unfold i128_min. lia.
  - unfold i128_min. lia.
Qed.

Lemma gas_cost_score_spec_witness :
  gas_cost_score [receipt_ok; receipt_huge] = Some (- (21000 * 1000000000 + Z.quot i128_max 8)).
Proof.
  rewrite (gas_cost_score_spec [receipt_ok; receipt_huge]).
  - vm_compute. reflexivity.
  - simpl. intros r [<-|[<-|[]]]; vm_compute; [left|right]; congruence.
  - vm_compute. congruence.
Defined.

(* ------------------------------------------------------------------ *)
(** ** Relay client *)

Example relay_envelope_example :
  submit_flashbots_bundle relay_ok (mkRelayClient (Some "http://relay"%string)) [[Byte.x01; Byte.x02; Byte.x03]]
    (Some 12345)
  = (Ok (JObj [("result"%string, JStr "ok")]),
     [mkRequest "http://relay"
        (JObj [("id"%string, JNum 1); ("jsonrpc"%string, JStr "2.0"); ("method"%string, JStr "eth_sendBundle");
               ("params"%string, JArr [JObj [("blockNumber"%string, JStr "0x3039");
                                      ("txs"%string, JArr [JStr "0x010203"])]])])]).
Proof. vm_compute. reflexivity. Qed.

Example base64_example : base64_encode [Byte.x01; Byte.x02; Byte.x03; Byte.x04] = "AQIDBA=="%string.
Proof. vm_compute. reflexivity. Qed.

(** C8: with no relay URL, [submit_flashbots_bundle] and
    [simulate_flashbots_bundle] fail with the not-configured error and
    [submit_bundle] returns ["stub"], none of them sending a request. *)
Theorem relay_unconfigured : forall post rc signed_txs block_number bundle,
  relay_url rc = None ->
  submit_flashbots_bundle post rc signed_txs block_number
    = (Err "FLASHBOTS_RELAY_URL not configured", []) /\
  simulate_flashbots_bundle post rc signed_txs block_number
    = (Err "FLASHBOTS_RELAY_URL not configured", []) /\
  submit_bundle post rc bundle = (Ok "stub"%string, []).
Proof.
  intros post rc txs bn bundle H.
  unfold submit_flashbots_bundle, simulate_flashbots_bundle, relay_call, submit_bundle.
  rewrite H. repeat split.
Qed.

Lemma relay_unconfigured_witness :
  submit_flashbots_bundle relay_ok (mkRelayClient None) [[Byte.x01]] None
    = (Err "FLASHBOTS_RELAY_URL not configured", []) /\
  simulate_flashbots_bundle relay_ok (mkRelayClient None) [[Byte.x01]] None
    = (Err "FLASHBOTS_RELAY_URL not configured", []) /\
  submit_bundle relay_ok (mkRelayClient None) [Byte.x01; Byte.x02; Byte.x03] = (Ok "stub"%string, []).
Proof. apply relay_unconfigured. reflexivity. Defined.

(* ------------------------------------------------------------------ *)
(** ** Autosubmitter *)

Example f64_1_25_powers :
  map (bump_factor_at cfg_kill_switch) [0; 1; 2]%nat
  = [Some (binary_normalize 53 1024 5 (-2) false);
     Some (binary_normalize 53 1024 25 (-4) false);
     Some (binary_normalize 53 1024 125 (-6) false)].
Proof. vm_compute. reflexivity. Qed.

(** C5 (counterexample): in the literal scenario the worst-case cost already
    exceeds [10^15] at the first bump attempt (5.25 * 10^15), so the third
    attempt is not the first to exceed it. *)
Lemma kill_switch_scenario_first_attempt :
  map (fun k => match bump_factor_at cfg_kill_switch k with
                | Some f => worst_case_cost [ks_tx; ks_tx] f
                | None => None
                end) [0; 1; 2]%nat
  = [Some 5250000000000000; Some 6562500000000000; Some 8203125000000000] /\
  10 ^ 15 < 5250000000000000.
Proof. split; [vm_compute; reflexivity | lia]. Qed.

Lemma kill_switch_scenario_run :
  submit_and_monitor_with_rebump 20 cfg_kill_switch world_never_included
    (Some [ks_tx; ks_tx]) (Some signer_const) blob_12 (mkRelayClient None) None
  = (AErr kill_switch_msg,
     map ESend blob_12 ++
     flat_map (fun _ => map EGetReceipt (map keccak256 blob_12) ++ [ESleep 2]) (seq 0 14) ++
     map EGetReceipt (map keccak256 blob_12)).
Proof. vm_compute. reflexivity. Qed.

(** C5: when the worst-case cost of the bump attempt the loop has reached
    exceeds [kill_switch_max_gas_wei], the Autosubmitter returns the
    kill-switch error with no further effect (no re-signing, no broadcast);
    in the literal scenario the run ends with that error at the first bump
    attempt, having signed nothing and broadcast only the original raw
    transactions. *)
Theorem bump_loop_kill_switch : forall cfg signer unsigned expected_pnl bump_idx remaining
    factor worst max_gas,
  (0 < remaining)%nat ->
  bump_factor_at cfg bump_idx = Some factor ->
  worst_case_cost unsigned factor = Some worst ->
  kill_switch_max_gas_wei cfg = Some max_gas ->
  max_gas < worst ->
  bump_loop cfg signer unsigned expected_pnl bump_idx remaining = (AErr kill_switch_msg, []) /\
  (let '(o, evs) := submit_and_monitor_with_rebump 20 cfg_kill_switch world_never_included
                      (Some [ks_tx; ks_tx]) (Some signer_const) blob_12 (mkRelayClient None) None in
   o = AErr kill_switch_msg /\ no_bumped_effects blob_12 evs = true).
Proof.
  intros cfg signer unsigned pnl idx rem factor worst max_gas Hrem Hf Hw Hm Hlt.
  split.
  - destruct rem as [|r]; [exfalso; lia|].
    cbn [bump_loop]. unfold bump_attempt. rewrite Hf, Hw, Hm.
    replace (max_gas <? worst) with true by (symmetry; apply Z.ltb_lt; exact Hlt).
    reflexivity.
  - vm_compute. split; reflexivity.
Qed.

Lemma bump_loop_kill_switch_witness :
  (0 < 3)%nat /\
  bump_loop cfg_kill_switch signer_const [ks_tx; ks_tx] None 0 3 = (AErr kill_switch_msg, []).
Proof.
  split; [lia|].
  destruct (bump_loop_kill_switch cfg_kill_switch signer_const [ks_tx; ks_tx] None 0 3
              f64_1_25 5250000000000000 (10 ^ 15)) as [H _].
  - lia.
  - vm_compute. reflexivity.
  - vm_compute. reflexivity.
  - reflexivity.
  - lia.
  - exact H.
Defined.

Lemma poll_receipts_none : forall w round hashes rj,
  (forall k h, aw_receipt w k h = None) ->
  fst (poll_receipts w round hashes rj) = rj.
Proof.
  intros w round hashes. induction hashes as [|h rest IH]; intros rj Hn; [reflexivity|].
  cbn [poll_receipts]. rewrite Hn.
  destruct (poll_receipts w round rest rj) as [rj' ev] eqn:E.
  simpl. specialize (IH rj Hn). rewrite E in IH. exact IH.
Qed.

Lemma monitor_loop_no_signer_running : forall fuel cfg w unsigned expected_pnl max_attempts st,
  (forall k h, aw_receipt w k h = None) ->
  (0 < max_retries cfg)%nat ->
  ms_receipts_json st = [] ->
  ms_tx_hashes st <> [] ->
  fst (monitor_loop fuel cfg w unsigned None expected_pnl max_attempts st) = ARunning.
Proof.
  induction fuel as [|f IH]; intros cfg w unsigned pnl max_attempts st Hn Hr Hrj Hh;
    [reflexivity|].
  cbn [monitor_loop].
  destruct (poll_receipts w (ms_round st) (ms_tx_hashes st) (ms_receipts_json st))
    as [rj ev1] eqn:E.
  assert (Hrj' : rj = []).
  { pose proof (poll_receipts_none w (ms_round st) (ms_tx_hashes st) (ms_receipts_json st) Hn)
      as P. rewrite E, Hrj in P. exact P. }
  subst rj.
  destruct (ms_tx_hashes st) as [|h hs] eqn:Ehs; [congruence|].
  cbn [length Nat.eqb].
  assert (Hnext : forall a, fst (monitor_loop f cfg w unsigned None pnl max_attempts
            (mkMonitorState (ms_signed_blob st) (h :: hs) [] a (S (ms_round st)))) = ARunning).
  { intro a. apply IH; simpl; auto; discriminate. }
  destruct (max_attempts <=? S (ms_attempts st))%nat.
  - destruct (max_retries cfg) as [|m] eqn:Em; [lia|]. cbn [Nat.eqb].
    destruct unsigned as [u|];
    destruct (monitor_loop f cfg w _ None pnl max_attempts
                (mkMonitorState (ms_signed_blob st) (h :: hs) [] 0 (S (ms_round st))))
      as [o ev] eqn:Eo;
    specialize (Hnext O); rewrite Eo in Hnext; simpl in Hnext; subst o; reflexivity.
  - destruct (monitor_loop f cfg w unsigned None pnl max_attempts
                (mkMonitorState (ms_signed_blob st) (h :: hs) [] (S (ms_attempts st))
                   (S (ms_round st)))) as [o ev] eqn:Eo.
    specialize (Hnext (S (ms_attempts st))). rewrite Eo in Hnext. simpl in Hnext.
    subst o. reflexivity.
Qed.

(** C6 (code bug): without a signer, with [max_retries > 0] and a node
    that never reports the transactions included, the Autosubmitter never
    fails with an inclusion timeout: whatever the number of polling
    iterations allowed, it is still running, re-broadcasting and polling
    again after each window. *)
Theorem no_signer_never_times_out : forall fuel cfg w unsigned signed_blob relay expected_pnl,
  aw_rpc_url_ok w = true ->
  poll_interval_secs cfg <> 0 ->
  (0 < max_retries cfg)%nat ->
  (forall k h, aw_receipt w k h = None) ->
  signed_blob <> [] ->
  fst (submit_and_monitor_with_rebump fuel cfg w unsigned None signed_blob relay expected_pnl)
  = ARunning.
Proof.
  intros fuel cfg w unsigned blob relay pnl Hurl Hpoll Hr Hn Hb.
  unfold submit_and_monitor_with_rebump. rewrite Hurl. cbn [negb].
  replace (poll_interval_secs cfg =? 0) with false by (symmetry; apply Z.eqb_neq; exact Hpoll).
  destruct (monitor_loop fuel cfg w unsigned None pnl
              (Z.to_nat (max_wait_secs cfg / poll_interval_secs cfg))
              (mkMonitorState blob (map keccak256 blob) [] 0 0)) as [o ev] eqn:E.
  pose proof (monitor_loop_no_signer_running fuel cfg w unsigned pnl
                (Z.to_nat (max_wait_secs cfg / poll_interval_secs cfg))
                (mkMonitorState blob (map keccak256 blob) [] 0 0) Hn Hr eq_refl) as P.
  rewrite E in P. simpl in P. simpl. apply P.
  simpl. destruct blob; [congruence|discriminate].
Qed.

Lemma no_signer_never_times_out_witness :
  fst (submit_and_monitor_with_rebump 50 cfg_one_retry world_never_included None None
         blob_12 (mkRelayClient None) None) = ARunning.
Proof.
  apply no_signer_never_times_out.
  - reflexivity.
  - simpl. lia.
  - simpl. lia.
  - intros k h. reflexivity.
  - simpl. discriminate.
Defined.

(** With a signer but [max_bumps = 0] the bump path sends nothing and
    returns at once. *)
Example zero_bumps_exhausted :
  fst (submit_and_monitor_with_rebump 20
         (mkAutosubmitConfig 3 2 30 f64_1_25 0 None None) world_never_included
         (Some [ks_tx; ks_tx]) (Some signer_const) blob_12 (mkRelayClient None) None)
  = AErr "exhausted gas bump attempts without inclusion".
Proof. vm_compute. reflexivity. Qed.

(** C10 (counterexample): with [poll_interval_secs = 0] and an [rpc_url]
    the provider rejects, the call returns the ["invalid rpc url"] error
    before the division, and does not panic. *)
Lemma poll_zero_invalid_url :
  submit_and_monitor_with_rebump 5 cfg_poll_zero world_bad_url None None blob_12
    (mkRelayClient None) None
  = (AErr "invalid rpc url", []).
Proof. vm_compute. reflexivity. Qed.

(** C10: with [poll_interval_secs = 0], every call first makes its relay
    attempt; if the provider rejects [rpc_url] it then returns the
    ["invalid rpc url"] error, and otherwise it broadcasts the signed
    transactions and panics on the division by zero that computes the
    number of poll attempts, whatever the other inputs. *)
Theorem poll_zero_outcome : forall fuel cfg w unsigned signer signed_blob relay expected_pnl,
  poll_interval_secs cfg = 0 ->
  let relay_events := map ERelay (snd (submit_flashbots_bundle (aw_post w) relay signed_blob None)) in
  submit_and_monitor_with_rebump fuel cfg w unsigned signer signed_blob relay expected_pnl
  = if aw_rpc_url_ok w
    then (APanic "attempt to divide by zero", relay_events ++ map ESend signed_blob)
    else (AErr "invalid rpc url", relay_events).
Proof.
  intros fuel cfg w unsigned signer blob relay pnl Hpoll relay_events.
  unfold submit_and_monitor_with_rebump. fold relay_events.
  destruct (aw_rpc_url_ok w); cbn [negb]; [rewrite Hpoll|]; reflexivity.
Qed.

Lemma poll_zero_outcome_witness :
  poll_interval_secs cfg_poll_zero = 0 /\
  submit_and_monitor_with_rebump 5 cfg_poll_zero world_never_included None None blob_12
    (mkRelayClient None) None
  = (APanic "attempt to divide by zero",
     map ERelay (snd (submit_flashbots_bundle (aw_post world_never_included) (mkRelayClient None)
                        blob_12 None)) ++ map ESend blob_12).
Proof.
  split; [reflexivity|].
  exact (poll_zero_outcome 5 cfg_poll_zero world_never_included None None blob_12
           (mkRelayClient None) None eq_refl).
Defined.

(* ------------------------------------------------------------------ *)
(** ** Signature reconstruction and low-[s] form *)

Lemma result_ok_inj : forall (A : Type) (a b : A), Ok a = Ok b -> a = b.
Proof. intros A a b H. congruence. Qed.

Lemma curve_n_odd : curve_n = 2 * half_n + 1.
Proof. reflexivity. Qed.

Lemma enforce_low_s_r : forall r s v, sig_r (enforce_low_s r s v) = r.
Proof. intros r s v. unfold enforce_low_s. destruct (half_n <? s); reflexivity. Qed.

Lemma enforce_low_s_le : forall r s v, sig_s (enforce_low_s r s v) <= half_n.
Proof.
  intros r s v. pose proof curve_n_odd as Hn.
  assert (0 <= half_n) by (vm_compute; discriminate).
  unfold enforce_low_s.
  destruct (half_n <? s) eqn:E; cbn [sig_s].
  - apply Z.ltb_lt in E. destruct (s <=? curve_n); lia.
  - apply Z.ltb_ge in E. exact E.
Qed.

Lemma der_recid_loop_first : forall z r s expected ids,
  compact_ok r s = true ->
  der_recid_loop z r s expected ids
  = match first_match z r s expected ids with
    | Some rid => Ok (enforce_low_s r s (rid + 27))
    | None => Err "unable to recover public key from signature"
    end.
Proof.
  intros z r s expected ids Hc. induction ids as [|rid rest IH]; [reflexivity|].
  cbn [der_recid_loop first_match]. rewrite Hc. cbn [negb]. unfold rid_matches.
  destruct (Secp256k1.recover z r s rid) as [pk|]; [|exact IH].
  destruct (address_matches expected (address_of pk)); [reflexivity | exact IH].
Qed.

Lemma first_match_in : forall z r s expected ids rid,
  first_match z r s expected ids = Some rid -> In rid ids.
Proof.
  intros z r s expected ids rid. induction ids as [|x rest IH]; [discriminate|].
  cbn [first_match]. destruct (rid_matches z r s expected x).
  - intro H. injection H as <-. left. reflexivity.
  - intro H. right. exact (IH H).
Qed.

Lemma der_recid_loop_low_s : forall z r s expected ids sg,
  der_recid_loop z r s expected ids = Ok sg -> sig_s sg <= half_n.
Proof.
  intros z r s expected ids sg. induction ids as [|rid rest IH]; [discriminate|].
  cbn [der_recid_loop]. destruct (negb (compact_ok r s)); [discriminate|].
  destruct (Secp256k1.recover z r s rid) as [pk|]; [|exact IH].
  destruct (address_matches expected (address_of pk)); [|exact IH].
  intro H. apply result_ok_inj in H. rewrite <- H. apply enforce_low_s_le.
Qed.

Lemma der_to_ethers_signature_low_s : forall der_sig msg_hash expected sg,
  der_to_ethers_signature der_sig msg_hash expected = Ok sg -> sig_s sg <= half_n.
Proof.
  intros der_sig msg_hash expected sg. unfold der_to_ethers_signature.
  destruct (parse_der der_sig) as [[r s]|]; [|discriminate].
  destruct (negb (length msg_hash =? 32)%nat); [discriminate|].
  apply der_recid_loop_low_s.
Qed.

Lemma parse_der_range : forall der_sig r s,
  parse_der der_sig = Some (r, s) -> 0 < r < curve_n /\ 0 < s < curve_n.
Proof.
  intros der_sig r s. unfold parse_der.
  destruct der_sig as [|t [|len rest]]; try discriminate.
  destruct (_ && _ && _); [|discriminate].
  destruct (der_int rest) as [[r0 rest1]|]; [|discriminate].
  destruct (der_int rest1) as [[s0 [|b l]]|]; try discriminate.
  destruct ((0 <? r0) && (r0 <? curve_n) && (0 <? s0) && (s0 <? curve_n)) eqn:E; [|discriminate].
  intro H. injection H as <- <-.
  repeat rewrite Bool.andb_true_iff in E. destruct E as [[[E1 E2] E3] E4].
  apply Z.ltb_lt in E1, E2, E3, E4. lia.
Qed.

Lemma compact64_loop_rs : forall z r s ids sg,
  compact64_loop z r s ids = Some sg -> sig_r sg = r /\ sig_s sg = s.
Proof.
  intros z r s ids sg. induction ids as [|rid rest IH]; [discriminate|].
  cbn [compact64_loop]. destruct (compact_ok r s); [|exact IH].
  destruct (Secp256k1.recover z r s rid); [|exact IH].
  intro H. injection H as <-. split; reflexivity.
Qed.

Lemma resolve_remote_signature_compact : forall sig_bytes sighash sg e,
  der_to_ethers_signature sig_bytes sighash None = Err e ->
  resolve_remote_signature sig_bytes sighash = Ok sg ->
  sig_r sg = be_to_Z (slice 0 32 sig_bytes) /\ sig_s sg = be_to_Z (slice 32 64 sig_bytes).
Proof.
  intros sig_bytes sighash sg e He. unfold resolve_remote_signature. rewrite He.
  destruct (length sig_bytes =? 65)%nat.
  - intro H. injection H as <-. split; reflexivity.
  - destruct (length sig_bytes =? 64)%nat; [|discriminate].
    destruct (negb (length sighash =? 32)%nat); [discriminate|].
    destruct (compact64_loop _ _ _ _) as [sg'|] eqn:E; [|discriminate].
    intro H. injection H as <-. exact (compact64_loop_rs _ _ _ _ _ E).
Qed.

Lemma remote_signature_rs : forall sign_digest tx sighash sig_bytes sg,
  sign_digest sighash = Ok sig_bytes ->
  remote_signature sign_digest tx sighash = Ok sg ->
  match der_to_ethers_signature sig_bytes sighash None with
  | Ok _ => sig_s sg <= half_n
  | Err _ => sig_r sg = be_to_Z (slice 0 32 sig_bytes) /\
             sig_s sg = be_to_Z (slice 32 64 sig_bytes)
  end.
Proof.
  intros sign_digest tx sighash sig_bytes sg Hd. unfold remote_signature. rewrite Hd.
  destruct (resolve_remote_signature sig_bytes sighash) as [sg0|e] eqn:Er; [|discriminate].
  intro H. injection H as <-.
  assert (Hn : sig_r (normalize_v tx sg0) = sig_r sg0 /\ sig_s (normalize_v tx sg0) = sig_s sg0)
    by (destruct tx; split; reflexivity).
  destruct Hn as [Hnr Hns]. rewrite Hnr, Hns.
  destruct (der_to_ethers_signature sig_bytes sighash None) as [sg1|e] eqn:Ed.
  - unfold resolve_remote_signature in Er. rewrite Ed in Er. injection Er as <-.
    exact (der_to_ethers_signature_low_s _ _ _ _ Ed).
  - exact (resolve_remote_signature_compact _ _ _ _ Ed Er).
Qed.

Lemma rlp_signed_rs : forall tx sg tx' sg',
  rlp_signed tx sg = Some (tx', sg') ->
  tx' = tx /\ sig_r sg' = sig_r sg /\ sig_s sg' = sig_s sg.
Proof.
  intros tx sg tx' sg'. unfold rlp_signed.
  destruct tx; [intro H; injection H as <- <-; auto|..];
    (destruct (rlp_normalize_v _ _); [|discriminate]);
    cbn [option_map]; intro H; injection H as <- <-; auto.
Qed.

(** X20: when [RemoteBasedSigner::sign_typed_transaction] signs [tx], it
    signs [tx] itself; if the remote's response parses as DER the signature
    has [s <= N/2], and otherwise (65-byte [r || s || v] or 64-byte
    [r || s]) it carries the remote's [r] and [s] unchanged. *)
Theorem sign_typed_transaction_remote_rs : forall sign_digest tx sighash sig_bytes tx' sg,
  sign_digest sighash = Ok sig_bytes ->
  sign_typed_transaction_remote sign_digest tx sighash = Some (Ok (tx', sg)) ->
  tx' = tx /\
  match der_to_ethers_signature sig_bytes sighash None with
  | Ok _ => sig_s sg <= half_n
  | Err _ => sig_r sg = be_to_Z (slice 0 32 sig_bytes) /\
             sig_s sg = be_to_Z (slice 32 64 sig_bytes)
  end.
Proof.
  intros sd tx sh bs tx' sg Hd. unfold sign_typed_transaction_remote.
  destruct (remote_signature sd tx sh) as [sg0|e] eqn:Er; [|discriminate].
  destruct (rlp_signed tx sg0) as [[tx1 sg1]|] eqn:Es; [|discriminate].
  cbn [option_map]. intro H. injection H as <- <-.
  destruct (rlp_signed_rs _ _ _ _ Es) as [-> [Hr Hs]]. split; [reflexivity|].
  pose proof (remote_signature_rs sd tx sh bs sg0 Hd Er) as Hrs.
  rewrite Hr, Hs. exact Hrs.
Qed.

Lemma sign_typed_transaction_remote_rs_witness :
  remote_high_s sighash_high_s = Ok sig65_high_s /\
  sign_typed_transaction_remote remote_high_s ks_tx sighash_high_s
    = Some (Ok (ks_tx, mkSig r_high_s (2 * r_high_s) 0)) /\
  ks_tx = ks_tx /\
  match der_to_ethers_signature sig65_high_s sighash_high_s None with
  | Ok _ => sig_s (mkSig r_high_s (2 * r_high_s) 0) <= half_n
  | Err _ => sig_r (mkSig r_high_s (2 * r_high_s) 0) = be_to_Z (slice 0 32 sig65_high_s) /\
             sig_s (mkSig r_high_s (2 * r_high_s) 0) = be_to_Z (slice 32 64 sig65_high_s)
  end.
Proof.
  assert (H : sign_typed_transaction_remote remote_high_s ks_tx sighash_high_s
              = Some (Ok (ks_tx, mkSig r_high_s (2 * r_high_s) 0)))
    by (vm_compute; reflexivity).
  split; [reflexivity|]. split; [exact H|].
  exact (sign_typed_transaction_remote_rs remote_high_s ks_tx sighash_high_s sig65_high_s
           ks_tx (mkSig r_high_s (2 * r_high_s) 0) eq_refl H).
Defined.

(** X21: for a DER signature the parser accepts, a digest whose length is
    not 32 bytes is rejected; over a 32-byte digest the Reconstructor
    answers for the first recovery id in 0..3 whose key has the expected
    address (any key when none is expected) with [(r, s', v)], [s' <= N/2]:
    for [s <= N/2] (so for [s = N/2]) [s' = s] and [v = id + 27], which is
    29 or 30 for ids 2 and 3; for [s > N/2] (so for [s = N/2 + 1])
    [s' = N - s] and [v] is 28 for id 0 and 27 otherwise. Without a matching
    id it fails. *)
Theorem der_to_ethers_signature_spec : forall der_sig msg_hash expected r s,
  parse_der der_sig = Some (r, s) ->
  ((length msg_hash <> 32)%nat ->
   der_to_ethers_signature der_sig msg_hash expected = Err "message hash must be 32 bytes") /\
  ((length msg_hash = 32)%nat ->
   match first_match (be_to_Z msg_hash) r s expected [0; 1; 2; 3] with
   | None =>
       der_to_ethers_signature der_sig msg_hash expected
       = Err "unable to recover public key from signature"
   | Some rid =>
       exists sg, der_to_ethers_signature der_sig msg_hash expected = Ok sg /\
         In rid [0; 1; 2; 3] /\ sig_r sg = r /\ sig_s sg <= half_n /\
         (s <= half_n -> sig_s sg = s /\ sig_v sg = rid + 27) /\
         (half_n < s -> sig_s sg = curve_n - s /\ sig_v sg = (if rid =? 0 then 28 else 27))
   end).
Proof.
  intros der_sig msg_hash expected r s Hp.
  pose proof (parse_der_range _ _ _ Hp) as [Hr Hs].
  assert (Hc : compact_ok r s = true).
  { unfold compact_ok. apply Bool.andb_true_iff. split; apply Z.ltb_lt; lia. }
  unfold der_to_ethers_signature. rewrite Hp. split.
  - intro Hl. apply Nat.eqb_neq in Hl. rewrite Hl. reflexivity.
  - intro Hl. rewrite Hl. cbn [Nat.eqb negb]. rewrite der_recid_loop_first by exact Hc.
    destruct (first_match _ r s expected _) as [rid|] eqn:Ef; [|reflexivity].
    exists (enforce_low_s r s (rid + 27)).
    split; [reflexivity|]. split; [exact (first_match_in _ _ _ _ _ _ Ef)|].
    split; [apply enforce_low_s_r|]. split; [apply enforce_low_s_le|].
    split.
    + intro Hle. unfold enforce_low_s.
      replace (half_n <? s) with false by (symmetry; apply Z.ltb_ge; lia).
      split; reflexivity.
    + intro Hlt. unfold enforce_low_s.
      replace (half_n <? s) with true by (symmetry; apply Z.ltb_lt; lia).
      replace (s <=? curve_n) with true by (symmetry; apply Z.leb_le; lia).
      cbn [sig_s sig_v]. split; [reflexivity|].
      apply first_match_in in Ef. simpl in Ef.
      destruct Ef as [<-|[<-|[<-|[<-|[]]]]]; reflexivity.
Qed.

Lemma der_to_ethers_signature_spec_witness :
  parse_der der_rid2 = Some (7, 7) /\ length digest_rid2 = 32%nat /\
  ((length digest_rid2 <> 32)%nat ->
   der_to_ethers_signature der_rid2 digest_rid2 None = Err "message hash must be 32 bytes").
Proof.
  split; [vm_compute; reflexivity|]. split; [reflexivity|].
  destruct (der_to_ethers_signature_spec der_rid2 digest_rid2 None 7 7) as [H _].
  - vm_compute. reflexivity.
  - exact H.
Defined.

(* ------------------------------------------------------------------ *)
(** ** More of the simulator *)

Lemma broadcast_loop_all_mined : forall w raws rcs n acc,
  Forall2 (fun raw rc => nw_verdict w raw = Mined rc) raws rcs ->
  broadcast_loop w n raws acc = (Ok (rev acc ++ rcs), with_txs n (node_txs n ++ raws)).
Proof.
  intros w raws rcs n acc H. revert n acc.
  induction H as [|raw rc raws rcs Hv H IH]; intros n acc; simpl.
  - rewrite !app_nil_r. destruct n; reflexivity.
  - rewrite Hv, IH. simpl. rewrite <- !app_assoc. reflexivity.
Qed.

(** X1: when the node accepts every RPC call and mines every transaction,
    [simulate_signed_bundle] returns one receipt per transaction, in order,
    and leaves the node exactly as it found it (transactions, base fee and
    snapshot stack). *)
Theorem simulate_signed_bundle_all_mined : forall w n raws bf rcs,
  nw_rpc_url_ok w = true -> nw_snapshot_ok w = true -> nw_revert_ok w = true ->
  (bf = None \/ nw_set_base_fee_ok w = true) ->
  Forall2 (fun raw rc => nw_verdict w raw = Mined rc) raws rcs ->
  simulate_signed_bundle w n raws bf = (Ok rcs, n).
Proof.
  intros w n raws bf rcs Hu Hs Hr Hbf Hm.
  unfold simulate_signed_bundle. rewrite Hu, Hs. simpl.
  assert (Hrev : forall bf0, evm_revert (Z.of_nat (length (node_snapshots n)))
            (with_txs (mkNode (node_txs n) bf0
                         ((Z.of_nat (length (node_snapshots n)), node_view n) :: node_snapshots n))
                      (node_txs n ++ raws)) = n).
  { intros bf0. unfold evm_revert. simpl. rewrite Z.eqb_refl. destruct n; reflexivity. }
  destruct bf as [b|].
  - destruct Hbf as [Hbf|Hbf]; [discriminate|]. rewrite Hbf.
    rewrite (broadcast_loop_all_mined _ _ _ _ _ Hm). simpl. rewrite Hr, Hrev. reflexivity.
  - rewrite (broadcast_loop_all_mined _ _ _ _ _ Hm). simpl. rewrite Hr.
    specialize (Hrev (node_next_base_fee n)). exact (f_equal (fun m => (Ok rcs, m)) Hrev).
Qed.

Lemma simulate_signed_bundle_all_mined_witness :
  simulate_signed_bundle world_all_mined fresh_node [[Byte.x01]; [Byte.x02]] (Some 7)
  = (Ok [receipt_ok; receipt_ok], fresh_node).
Proof.
  apply simulate_signed_bundle_all_mined; try reflexivity.
  - right. reflexivity.
  - repeat constructor.
Defined.

Lemma skipn_nth_error_some : forall (l : list Z) i p,
  nth_error l i = Some p -> skipn i l = p :: skipn (S i) l.
Proof.
  induction l as [|x l IH]; intros [|i] p H; simpl in *; try discriminate.
  - inversion H; reflexivity.
  - apply IH, H.
Qed.

Lemma skipn_nth_error_none : forall (l : list Z) i,
  nth_error l i = None -> skipn i l = [].
Proof.
  induction l as [|x l IH]; intros [|i] H; simpl in *; try discriminate; auto.
Qed.

Lemma i128_checked_some : forall x v, i128_checked x = Some v -> v = x.
Proof.
  intros x v. unfold i128_checked. destruct (_ || _); intros H; inversion H; reflexivity.
Qed.

Lemma configurable_score_loop_spec : forall p gw pw epnl rs i total v,
  configurable_score_loop p gw pw epnl i total rs = Some v ->
  v = total - p * count_reverts rs - gw * sum_Z (map receipt_cost_i128 rs)
      + pw * sum_Z (pnl_slice epnl i (length rs)).
Proof.
  intros p gw pw epnl rs. induction rs as [|r rs IH]; intros i total v H.
  - simpl in H. inversion H; subst. unfold count_reverts, pnl_slice. simpl.
    destruct epnl; simpl; lia.
  - simpl in H. unfold obind at 1 in H.
    destruct (if is_revert r then i128_checked (total - p) else Some total) as [t1|] eqn:E1;
      [|discriminate].
    unfold obind at 1 in H.
    destruct (i128_checked (receipt_cost_i128 r * gw)) as [c|] eqn:E2; [|discriminate].
    apply i128_checked_some in E2. unfold obind at 1 in H.
    destruct (i128_checked (t1 - c)) as [t2|] eqn:E3; [|discriminate].
    apply i128_checked_some in E3. unfold obind in H.
    assert (Ht1 : t1 = total - p * (if is_revert r then 1 else 0)).
    { destruct (is_revert r); [apply i128_checked_some in E1; lia|inversion E1; lia]. }
    assert (Hcr : count_reverts (r :: rs) = (if is_revert r then 1 else 0) + count_reverts rs).
    { unfold count_reverts. simpl filter. destruct (is_revert r); simpl length; lia. }
    rewrite Hcr. simpl map. rewrite sum_Z_cons. simpl length.
    clear E1. set (b := if is_revert r then 1 else 0) in *.
    destruct epnl as [pnls|].
    + destruct (nth_error pnls i) as [q|] eqn:E4.
      * destruct (i128_checked (q * pw)) as [m|] eqn:E5; [|discriminate].
        apply i128_checked_some in E5.
        destruct (i128_checked (t2 + m)) as [t3|] eqn:E6; [|discriminate].
        apply i128_checked_some in E6.
        apply IH in H. unfold pnl_slice in *.
        rewrite (skipn_nth_error_some _ _ _ E4), firstn_cons, sum_Z_cons.
        nia.
      * assert (E4' : skipn (S i) pnls = []).
        { apply skipn_nth_error_none. apply nth_error_None in E4.
          apply nth_error_None. lia. }
        inversion H as [H']. clear H. apply IH in H'. unfold pnl_slice in *.
        rewrite (skipn_nth_error_none _ _ E4). rewrite E4' in H'.
        rewrite firstn_nil in H'. rewrite firstn_nil.
        change (sum_Z []) with 0 in *. nia.
    + inversion H as [H']. clear H. apply IH in H'. unfold pnl_slice in *.
      change (sum_Z []) with 0 in *. nia.
Qed.

(** X2: when [ConfigurableScorer::score] returns (no i128 overflow), its
    score is [- revert_penalty * (number of reverts) - gas_weight * (sum of
    the receipts' cost_i128) + pnl_weight * (sum of the first
    receipts.len() expected P&L entries)]: a revert does not stop the
    scoring, and P&L entries beyond the receipts are ignored. *)
Theorem configurable_score_closed_form : forall revert_penalty gas_weight pnl_weight receipts
    expected_pnl v,
  configurable_score revert_penalty gas_weight pnl_weight receipts expected_pnl = Some v ->
  v = - revert_penalty * count_reverts receipts
      - gas_weight * sum_Z (map receipt_cost_i128 receipts)
      + pnl_weight * sum_Z (match expected_pnl with
                            | Some pnls => firstn (length receipts) pnls
                            | None => []
                            end).
Proof.
  intros p gw pw rs epnl v H. apply configurable_score_loop_spec in H.
  unfold pnl_slice in H. rewrite H. destruct epnl as [pnls|]; [|ring].
  change (skipn 0 pnls) with pnls. ring.
Qed.

Lemma configurable_score_closed_form_witness :
  configurable_score 1000 1 2 [receipt_ok; receipt_revert] (Some [5; 7; 9])
    = Some (-71000000000976) /\
  -71000000000976 = - 1000 * count_reverts [receipt_ok; receipt_revert]
      - 1 * sum_Z (map receipt_cost_i128 [receipt_ok; receipt_revert])
      + 2 * sum_Z (firstn (length [receipt_ok; receipt_revert]) [5; 7; 9]).
Proof.
  assert (H : configurable_score 1000 1 2 [receipt_ok; receipt_revert] (Some [5; 7; 9])
              = Some (-71000000000976)) by (vm_compute; reflexivity).
  split; [exact H|].
  exact (configurable_score_closed_form 1000 1 2 [receipt_ok; receipt_revert] (Some [5; 7; 9])
           (-71000000000976) H).
Defined.

Lemma collect_outcomes_in : forall rs o, In o (collect_outcomes rs) <-> In (TOk o) rs.
Proof.
  induction rs as [|r rs IH]; intros o; simpl; [tauto|].
  destruct r as [a| |]; simpl; rewrite IH; split; intros H;
    try (destruct H as [H|H]; [try inversion H; subst|]); auto; try discriminate.
Qed.

Lemma choose_best_loop_acc : forall l acc,
  Forall (nonce_lt acc) l -> Sorted nonce_lt l ->
  exists o, choose_best_loop (Some (best_of acc)) l = Some (best_of o) /\
    (o = acc \/ In o l) /\ outcome_score acc <= outcome_score o /\
    forall o', (o' = acc \/ In o' l) ->
      outcome_score o' <= outcome_score o /\
      (outcome_score o' = outcome_score o -> outcome_nonce o <= outcome_nonce o').
Proof.
  induction l as [|x l IH]; intros acc Hlt Hs.
  - exists acc. split; [reflexivity|]. split; [left; reflexivity|]. split; [lia|].
    intros o' [->|[]]. lia.
  - apply Sorted_StronglySorted in Hs as Hss; [|intros a b c; unfold nonce_lt; lia].
    inversion Hss as [|? ? Hss' Hx]; subst.
    inversion Hs as [|? ? Hs' _]; subst.
    inversion Hlt as [|? ? Hax Hal]; subst.
    simpl. destruct acc as [[[an asc] ar] ab].
    cbn [best_of].
    destruct (asc <? outcome_score x) eqn:E.
    + apply Z.ltb_lt in E.
      destruct x as [[[xn xs] xr] xb].
      destruct (IH (xn, xs, xr, xb) Hx Hs') as [o [Ho [Hin [Hge Hmax]]]].
      exists o. split; [exact Ho|]. split; [destruct Hin as [->|Hin]; auto|].
      unfold outcome_score in *; simpl in *. split; [lia|].
      intros o' [->|[<-|Hin']].
      * simpl. split; [lia|]. intros. lia.
      * exact (Hmax _ (or_introl eq_refl)).
      * apply Hmax. right. exact Hin'.
    + apply Z.ltb_ge in E.
      destruct (IH (an, asc, ar, ab) Hal Hs') as [o [Ho [Hin [Hge Hmax]]]].
      exists o. split; [exact Ho|]. split; [destruct Hin as [->|Hin]; auto|].
      split; [exact Hge|].
      intros o' [->|[<-|Hin']].
      * apply Hmax. left. reflexivity.
      * unfold outcome_score in *; simpl in *. split; [lia|]. intros Heq.
        destruct Hin as [->|Hin].
        -- unfold nonce_lt in Hax. simpl in *. lia.
        -- assert (Hao : outcome_score (an, asc, ar, ab) = outcome_score o)
             by (unfold outcome_score; simpl; lia).
           destruct (Hmax _ (or_introl eq_refl)) as [_ Hle]. specialize (Hle Hao).
           rewrite Forall_forall in Hal. specialize (Hal _ Hin).
           unfold nonce_lt in Hal. lia.
      * apply Hmax. right. exact Hin'.
Qed.

Lemma choose_best_loop_none : forall b l, choose_best_loop (Some b) l <> None.
Proof.
  intros b l; revert b; induction l as [|o l IH]; intros b; simpl; [discriminate|].
  destruct b as [[[? s] ?] ?]. destruct (s <? outcome_score o); apply IH.
Qed.

(** X3: with at least one and at most [MAX_PERMITS] permits and the tasks
    finishing in any order,
    [choose_best_nonce_strategy] returns [None] exactly when no offset
    succeeds; otherwise it returns the outcome of a successful offset whose
    score is the highest of all successful offsets and, among those of that
    score, the one of lowest nonce. *)
Theorem choose_best_nonce_strategy_first_max :
  forall env unsigned base_nonce nonce_range concurrency completion_order,
    Permutation completion_order (seq 0 nonce_range) -> (0 < concurrency)%nat ->
    Z.of_nat concurrency <= max_permits ->
    match fst (choose_best_nonce_strategy env unsigned base_nonce nonce_range concurrency
                 completion_order) with
    | None => False
    | Some None =>
        forall k o, (k < nonce_range)%nat -> fst (nonce_task env unsigned base_nonce k) <> TOk o
    | Some (Some b) =>
        exists k o, (k < nonce_range)%nat /\ fst (nonce_task env unsigned base_nonce k) = TOk o /\
          b = best_of o /\
          forall k' o', (k' < nonce_range)%nat ->
            fst (nonce_task env unsigned base_nonce k') = TOk o' ->
            outcome_score o' <= outcome_score o /\
            (outcome_score o' = outcome_score o -> outcome_nonce o <= outcome_nonce o')
    end.
Proof.
  intros env unsigned base n conc order Hperm Hc Hm.
  unfold choose_best_nonce_strategy, simulate_unsigned_bundle_try_nonces_with_scorer.
  rewrite (proj2 (Z.ltb_ge _ _) Hm).
  replace ((conc =? 0)%nat && (0 <? n)%nat) with false
    by (destruct conc; [lia|reflexivity]).
  rewrite map_map. simpl.
  set (outs := collect_outcomes (map (fun k => fst (nonce_task env unsigned base k)) order)).
  assert (Hnd : NoDup order)
    by (apply (Permutation_NoDup (Permutation_sym Hperm)), seq_NoDup).
  assert (Hsorted : Sorted nonce_lt (sort_by_nonce outs)).
  { apply sorted_le_nodup_lt; [apply sort_by_nonce_sorted|].
    apply (Permutation_NoDup (Permutation_map outcome_nonce
                                (Permutation_sym (sort_by_nonce_perm outs)))).
    apply collect_nonces_nodup, Hnd. }
  assert (Hin : forall o, In o (sort_by_nonce outs) <->
                  exists k, (k < n)%nat /\ fst (nonce_task env unsigned base k) = TOk o).
  { intros o. split.
    - intros H. apply (Permutation_in _ (sort_by_nonce_perm outs)) in H.
      apply collect_outcomes_in, in_map_iff in H. destruct H as [k [Hk Hkin]].
      exists k. split; [|exact Hk].
      apply (Permutation_in _ Hperm), in_seq in Hkin. lia.
    - intros [k [Hk Ho]]. apply (Permutation_in _ (Permutation_sym (sort_by_nonce_perm outs))).
      apply collect_outcomes_in, in_map_iff. exists k. split; [exact Ho|].
      apply (Permutation_in _ (Permutation_sym Hperm)), in_seq. lia. }
  destruct (sort_by_nonce outs) as [|x l] eqn:El.
  - simpl. intros k o Hk Ho. apply (proj2 (Hin o)). exists k. auto.
  - simpl. destruct x as [[[xn xs] xr] xb].
    apply Sorted_StronglySorted in Hsorted as Hss; [|intros a b c; unfold nonce_lt; lia].
    inversion Hss as [|? ? _ Hx]; subst.
    inversion Hsorted as [|? ? Hs' _]; subst.
    destruct (choose_best_loop_acc l (xn, xs, xr, xb) Hx Hs') as [o [Ho [Hino [_ Hmax]]]].
    rewrite Ho.
    destruct (proj1 (Hin o)) as [k [Hk Hko]]; [destruct Hino as [->|Hino]; simpl; auto|].
    exists k, o. split; [exact Hk|]. split; [exact Hko|]. split; [reflexivity|].
    intros k' o' Hk' Ho'. apply Hmax.
    assert (H' : In o' ((xn, xs, xr, xb) :: l)) by (apply Hin; exists k'; auto).
    destruct H' as [->|H']; auto.
Qed.

Lemma choose_best_nonce_strategy_first_max_witness :
  Permutation [1; 0]%nat (seq 0 2) /\ (0 < 1)%nat /\ Z.of_nat 1 <= max_permits /\
  match fst (choose_best_nonce_strategy nonce_echo_env [legacy_nonce_7] 100 2 1 [1; 0]%nat) with
  | None => False
  | Some None =>
      forall k o, (k < 2)%nat -> fst (nonce_task nonce_echo_env [legacy_nonce_7] 100 k) <> TOk o
  | Some (Some b) =>
      exists k o, (k < 2)%nat /\ fst (nonce_task nonce_echo_env [legacy_nonce_7] 100 k) = TOk o /\
        b = best_of o /\
        forall k' o', (k' < 2)%nat ->
          fst (nonce_task nonce_echo_env [legacy_nonce_7] 100 k') = TOk o' ->
          outcome_score o' <= outcome_score o /\
          (outcome_score o' = outcome_score o -> outcome_nonce o <= outcome_nonce o')
  end.
Proof.
  assert (Hp : Permutation [1; 0]%nat (seq 0 2)) by (simpl; apply perm_swap).
  assert (Hc : (0 < 1)%nat) by lia.
  assert (Hm : Z.of_nat 1 <= max_permits) by (unfold max_permits; vm_compute; discriminate).
  split; [exact Hp|]. split; [exact Hc|]. split; [exact Hm|].
  exact (choose_best_nonce_strategy_first_max nonce_echo_env [legacy_nonce_7] 100 2 1 [1; 0]%nat
           Hp Hc Hm).
Defined.

(** On three outcomes where the last two share the top score, the loop
    keeps the first of them. *)
Example choose_best_loop_tie :
  choose_best_loop None outcomes_tied = Some (6, 4, [], []).
Proof. reflexivity. Qed.

Lemma direct_submit_loop_all : forall verdict raws acc,
  Forall (fun raw => exists rc, verdict raw = DReceipt rc) raws ->
  direct_submit_loop verdict raws acc
  = (Ok (acc ++ direct_receipts_of verdict raws), map ESend raws).
Proof.
  intros verdict raws; induction raws as [|raw raws IH]; intros acc H; simpl.
  - rewrite app_nil_r. reflexivity.
  - inversion H as [|? ? [rc Hrc] Hrest]; subst. rewrite Hrc, IH by exact Hrest.
    destruct rc; simpl; rewrite <- ?app_assoc; reflexivity.
Qed.

Lemma direct_submit_loop_abort : forall verdict pre raw post acc,
  Forall (fun raw => exists rc, verdict raw = DReceipt rc) pre ->
  (forall rc, verdict raw <> DReceipt rc) ->
  exists e, direct_submit_loop verdict (pre ++ raw :: post) acc = (Err e, map ESend (pre ++ [raw])).
Proof.
  intros verdict pre raw post; induction pre as [|x pre IH]; intros acc Hpre Hraw; simpl.
  - destruct (verdict raw) eqn:E.
    + eexists; reflexivity.
    + eexists; reflexivity.
    + eexists; reflexivity.
    + exfalso. exact (Hraw _ eq_refl).
  - inversion Hpre as [|? ? [rc Hrc] Hrest]; subst. rewrite Hrc.
    destruct (IH (match rc with Some r => acc ++ [r] | None => acc end) Hrest Hraw) as [e He].
    rewrite He. exists e. reflexivity.
Qed.

(** X4: when the relay call fails (for instance with no relay configured)
    and the RPC URL is valid, [autosubmit_signed_bundle] sends every
    transaction once, in order, and when every send resolves it returns
    [{"direct_receipts": ...}] holding the receipts that came back, in order;
    transactions that resolved without a receipt are dropped without an
    error. *)
Theorem autosubmit_signed_bundle_direct : forall w signed_blob relay_client e,
  fst (submit_flashbots_bundle (dw_post w) relay_client signed_blob None) = Err e ->
  dw_rpc_url_ok w = true ->
  Forall (fun raw => exists rc, dw_verdict w raw = DReceipt rc) signed_blob ->
  autosubmit_signed_bundle w signed_blob relay_client
  = (Ok (JObj [("direct_receipts"%string, JArr (direct_receipts_of (dw_verdict w) signed_blob))]),
     map ERelay (snd (submit_flashbots_bundle (dw_post w) relay_client signed_blob None))
     ++ map ESend signed_blob).
Proof.
  intros w blob rc e Hrelay Hurl Hall. unfold autosubmit_signed_bundle.
  destruct (submit_flashbots_bundle (dw_post w) rc blob None) as [r reqs]. simpl in Hrelay.
  subst r. rewrite Hurl. simpl. rewrite (direct_submit_loop_all _ _ _ Hall). reflexivity.
Qed.

Lemma autosubmit_signed_bundle_direct_witness :
  autosubmit_signed_bundle direct_world_second_lost blob_12 (mkRelayClient None)
  = (Ok (JObj [("direct_receipts"%string, JArr [receipt_json])]), [ESend [Byte.x01]; ESend [Byte.x02]]).
Proof.
  refine (autosubmit_signed_bundle_direct direct_world_second_lost blob_12 (mkRelayClient None)
            "FLASHBOTS_RELAY_URL not configured" eq_refl eq_refl _).
  repeat constructor; eexists; reflexivity.
Defined.

(** X5: in the direct path of [autosubmit_signed_bundle], the first
    transaction whose send fails, times out or ends in a provider error
    makes the call return an error: the transactions after it are never
    sent, and the receipts already obtained are not returned. *)
Theorem autosubmit_signed_bundle_first_failure : forall w pre raw post relay_client e,
  fst (submit_flashbots_bundle (dw_post w) relay_client (pre ++ raw :: post) None) = Err e ->
  dw_rpc_url_ok w = true ->
  Forall (fun raw => exists rc, dw_verdict w raw = DReceipt rc) pre ->
  (forall rc, dw_verdict w raw <> DReceipt rc) ->
  exists msg, autosubmit_signed_bundle w (pre ++ raw :: post) relay_client
  = (Err msg,
     map ERelay (snd (submit_flashbots_bundle (dw_post w) relay_client (pre ++ raw :: post) None))
     ++ map ESend (pre ++ [raw])).
Proof.
  intros w pre raw post rc e Hrelay Hurl Hpre Hraw. unfold autosubmit_signed_bundle.
  destruct (submit_flashbots_bundle (dw_post w) rc (pre ++ raw :: post) None) as [r reqs].
  simpl in Hrelay. subst r. rewrite Hurl. simpl.
  destruct (direct_submit_loop_abort (dw_verdict w) pre raw post [] Hpre Hraw) as [msg Hm].
  rewrite Hm. exists msg. reflexivity.
Qed.

Lemma autosubmit_signed_bundle_first_failure_witness :
  exists msg, autosubmit_signed_bundle direct_world_second_refused
                ([[Byte.x01]] ++ [Byte.x02] :: [[Byte.x03]]) (mkRelayClient None)
  = (Err msg, [] ++ map ESend ([[Byte.x01]] ++ [[Byte.x02]])).
Proof.
  refine (autosubmit_signed_bundle_first_failure direct_world_second_refused [[Byte.x01]]
            [Byte.x02] [[Byte.x03]] (mkRelayClient None) "FLASHBOTS_RELAY_URL not configured"
            eq_refl eq_refl _ _).
  - repeat constructor. eexists; reflexivity.
  - intros rc. discriminate.
Defined.

Lemma sign_bundle_nth : forall sign txs current blob,
  sign_bundle sign current txs = TOk blob ->
  length blob = length txs /\
  forall i tx, nth_error txs i = Some tx ->
    exists b, nth_error blob i = Some b /\ sign (set_nonce_tx tx (current + Z.of_nat i)) = Ok b.
Proof.
  intros sign txs; induction txs as [|tx txs IH]; intros current blob H; simpl in H.
  - inversion H; subst. split; [reflexivity|]. intros [|i] t Ht; discriminate.
  - destruct (sign (set_nonce_tx tx current)) as [signed|msg] eqn:Es; [|discriminate].
    destruct (u64_max <? current + 1); [discriminate|].
    destruct (sign_bundle sign (current + 1) txs) as [rest| |] eqn:Er; try discriminate.
    inversion H; subst. destruct (IH _ _ Er) as [Hlen Hnth].
    split; [simpl; lia|]. intros [|i] t Ht; simpl in Ht.
    + inversion Ht; subst. exists signed. split; [reflexivity|]. rewrite Z.add_0_r. exact Es.
    + destruct (Hnth i t Ht) as [b [Hb Hs]]. exists b. split; [exact Hb|].
      replace (current + Z.of_nat (S i)) with (current + 1 + Z.of_nat i) by lia. exact Hs.
Qed.

(** X6: when the task of offset [k] succeeds, its bundle has one signed
    transaction per unsigned one, and the [i]-th is the signer's output for
    the [i]-th transaction with nonce [base_nonce + k + i] set, which an
    EIP-1559 transaction then carries. *)
Theorem nonce_task_signs_consecutive_nonces : forall env unsigned base_nonce k o,
  fst (nonce_task env unsigned base_nonce k) = TOk o ->
  length (snd o) = length unsigned /\
  forall i tx, nth_error unsigned i = Some tx ->
    exists b, nth_error (snd o) i = Some b /\
      sw_sign env (set_nonce_tx tx (base_nonce + Z.of_nat k + Z.of_nat i)) = Ok b /\
      (is_eip1559 tx = true ->
       tx_nonce (set_nonce_tx tx (base_nonce + Z.of_nat k + Z.of_nat i))
       = Some (base_nonce + Z.of_nat k + Z.of_nat i)).
Proof.
  intros env unsigned base k o H. unfold nonce_task in H.
  destruct (u64_max <? base + Z.of_nat k); [discriminate|].
  destruct (sign_bundle (sw_sign env) (base + Z.of_nat k) unsigned) as [blob| |] eqn:Eb;
    try discriminate.
  simpl in H. destruct (sw_simulate env k blob) as [rs|]; [|discriminate].
  destruct (sw_score env rs blob); inversion H; subst. simpl.
  destruct (sign_bundle_nth _ _ _ _ Eb) as [Hlen Hnth]. split; [exact Hlen|].
  intros i tx Htx. destruct (Hnth i tx Htx) as [b [Hb Hs]]. exists b.
  split; [exact Hb|]. split; [exact Hs|].
  destruct tx; simpl; [discriminate|discriminate|reflexivity].
Qed.

Lemma nonce_task_signs_consecutive_nonces_witness :
  fst (nonce_task nonce_echo_env [ks_tx; ks_tx] 100 2)
    = TOk (102, 0, [receipt_ok], [Z_to_be 8 102; Z_to_be 8 103]) /\
  (length [Z_to_be 8 102; Z_to_be 8 103] = length [ks_tx; ks_tx] /\
   forall i tx, nth_error [ks_tx; ks_tx] i = Some tx ->
     exists b, nth_error [Z_to_be 8 102; Z_to_be 8 103] i = Some b /\
       sw_sign nonce_echo_env (set_nonce_tx tx (100 + Z.of_nat 2 + Z.of_nat i)) = Ok b /\
       (is_eip1559 tx = true ->
        tx_nonce (set_nonce_tx tx (100 + Z.of_nat 2 + Z.of_nat i))
        = Some (100 + Z.of_nat 2 + Z.of_nat i))).
Proof.
  assert (H : fst (nonce_task nonce_echo_env [ks_tx; ks_tx] 100 2)
              = TOk (102, 0, [receipt_ok], [Z_to_be 8 102; Z_to_be 8 103]))
    by (vm_compute; reflexivity).
  split; [exact H|].
  exact (nonce_task_signs_consecutive_nonces nonce_echo_env [ks_tx; ks_tx] 100 2 _ H).
Defined.

Lemma sign_bundle_all_signed : forall sign txs current,
  (forall tx, exists b, sign tx = Ok b) ->
  (txs <> [] -> u64_max < current + Z.of_nat (length txs) -> sign_bundle sign current txs = TPanic)
  /\ (current + Z.of_nat (length txs) <= u64_max -> exists blob, sign_bundle sign current txs = TOk blob).
Proof.
  intros sign txs; induction txs as [|tx txs IH]; intros current Hs.
  - split; [intros H; exfalso; apply H; reflexivity|]. intros _. exists []. reflexivity.
  - simpl. destruct (Hs (set_nonce_tx tx current)) as [b Hb]. rewrite Hb.
    destruct (IH (current + 1) Hs) as [Hp Hok]. split.
    + intros _ Hlt. destruct (u64_max <? current + 1) eqn:E; [reflexivity|].
      apply Z.ltb_ge in E. destruct txs as [|tx' txs'].
      * simpl in Hlt. lia.
      * rewrite Hp; [reflexivity|discriminate|simpl length in *; lia].
    + intros Hle. replace (u64_max <? current + 1) with false by (symmetry; apply Z.ltb_ge; lia).
      destruct Hok as [blob Hblob]; [simpl length in Hle; lia|]. rewrite Hblob. eexists. reflexivity.
Qed.

(** X7: with a signer that always succeeds and a scorer that never
    panics, the task of offset [k] on a non-empty bundle of [n] transactions panics exactly when
    [base_nonce + k + n > u64::MAX]: the [current += 1] after the last
    transaction overflows, so a bundle whose last nonce is [u64::MAX] is
    never simulated. *)
Theorem nonce_task_panics_iff : forall env unsigned base_nonce k,
  (forall tx, exists b, sw_sign env tx = Ok b) ->
  (forall receipts blob, sw_score env receipts blob <> None) -> unsigned <> [] ->
  (fst (nonce_task env unsigned base_nonce k) = TPanic <->
   u64_max < base_nonce + Z.of_nat k + Z.of_nat (length unsigned)).
Proof.
  intros env unsigned base k Hs Hsc Hne. unfold nonce_task.
  destruct (sign_bundle_all_signed (sw_sign env) unsigned (base + Z.of_nat k) Hs) as [Hp Hok].
  destruct (u64_max <? base + Z.of_nat k) eqn:E.
  - apply Z.ltb_lt in E. simpl. split; [intros _|reflexivity]. lia.
  - apply Z.ltb_ge in E.
    destruct (Z_lt_le_dec u64_max (base + Z.of_nat k + Z.of_nat (length unsigned))) as [Hlt|Hle].
    + rewrite (Hp Hne Hlt). simpl. tauto.
    + destruct (Hok Hle) as [blob Hb]. rewrite Hb. simpl.
      destruct (sw_simulate env k blob) as [rs|]; simpl;
        [destruct (sw_score env rs blob) eqn:Esc; [|exfalso; exact (Hsc rs blob Esc)]|];
        simpl; split; intros H; try discriminate; lia.
Qed.

Lemma nonce_task_panics_iff_witness :
  (forall tx, exists b, sw_sign nonce_echo_env tx = Ok b) /\
  (forall receipts blob, sw_score nonce_echo_env receipts blob <> None) /\ [ks_tx] <> [] /\
  (fst (nonce_task nonce_echo_env [ks_tx] u64_max 0) = TPanic <->
   u64_max < u64_max + Z.of_nat 0 + Z.of_nat (length [ks_tx])).
Proof.
  assert (Hs : forall tx, exists b, sw_sign nonce_echo_env tx = Ok b)
    by (intros tx; eexists; reflexivity).
  assert (Hsc : forall receipts blob, sw_score nonce_echo_env receipts blob <> None)
    by (intros receipts blob; discriminate).
  assert (Hne : [ks_tx] <> []) by discriminate.
  split; [exact Hs|]. split; [exact Hsc|]. split; [exact Hne|].
  exact (nonce_task_panics_iff nonce_echo_env [ks_tx] u64_max 0 Hs Hsc Hne).
Defined.

(* ------------------------------------------------------------------ *)
(** ** More of the autosubmitter *)

Lemma poll_receipts_eq : forall w round hashes rj,
  poll_receipts w round hashes rj
  = (rj ++ flat_map (fun h => match aw_receipt w round h with Some r => [r] | None => [] end)
                    hashes,
     map EGetReceipt hashes).
Proof.
  intros w round hashes; induction hashes as [|h hs IH]; intros rj; simpl.
  - rewrite app_nil_r. reflexivity.
  - rewrite IH. destruct (aw_receipt w round h); simpl; rewrite <- ?app_assoc; reflexivity.
Qed.

Lemma sign_bumped_err_or_panic : forall signer txs factor o,
  fst (sign_bumped signer txs factor) = inr o -> err_or_panic o.
Proof.
  intros signer txs factor; induction txs as [|tx txs IH]; intros o H; simpl in H;
    [discriminate|].
  destruct (bump_tx tx factor) as [t2|]; [|inversion H; exact I].
  destruct (signer t2) as [raw|e]; [|inversion H; exact I].
  destruct (sign_bumped signer txs factor) as [[l|o'] ev] eqn:E; simpl in H; [discriminate|].
  inversion H; subst. apply IH. reflexivity.
Qed.

Lemma bump_loop_err_or_panic : forall cfg signer unsigned expected_pnl remaining bump_idx,
  err_or_panic (fst (bump_loop cfg signer unsigned expected_pnl bump_idx remaining)).
Proof.
  intros cfg signer unsigned pnl remaining; induction remaining as [|r IH]; intros idx;
    simpl; [exact I|].
  unfold bump_attempt.
  destruct (bump_factor_at cfg idx) as [factor|]; [|exact I].
  destruct (worst_case_cost unsigned factor) as [worst|]; [|exact I].
  destruct (match kill_switch_max_gas_wei cfg with Some m => m <? worst | None => false end);
    [exact I|].
  destruct (match pnl, kill_switch_max_loss_wei cfg with
            | Some pnls, Some max_loss =>
                max_loss <? i128_saturate (u128_as_i128 worst -
                              fold_left (fun t v => i128_saturate (t + v)) pnls 0)
            | _, _ => false end); [exact I|].
  destruct (sign_bumped signer unsigned factor) as [[blob|o] ev] eqn:E.
  - destruct (bump_loop cfg signer unsigned pnl (S idx) r) as [o ev'] eqn:E'.
    simpl. specialize (IH (S idx)). rewrite E' in IH. exact IH.
  - simpl. apply (sign_bumped_err_or_panic signer unsigned factor). rewrite E. reflexivity.
Qed.

Lemma monitor_loop_signer_stops : forall fuel cfg w u s pnl ma st,
  (1 <= fuel)%nat -> (ma <= fuel + ms_attempts st)%nat ->
  fst (monitor_loop fuel cfg w (Some u) (Some s) pnl ma st) <> ARunning.
Proof.
  induction fuel as [|f IH]; intros cfg w u s pnl ma st H1 Hma; [lia|].
  cbn [monitor_loop].
  destruct (poll_receipts w (ms_round st) (ms_tx_hashes st) (ms_receipts_json st)) as [rj ev1].
  destruct (length rj =? length (ms_tx_hashes st))%nat; [discriminate|].
  destruct (ma <=? S (ms_attempts st))%nat eqn:Eb.
  - destruct (max_retries cfg =? 0)%nat; [discriminate|].
    destruct (bump_loop cfg s u pnl 0 (max_bumps cfg)) as [o ev2] eqn:E.
    pose proof (bump_loop_err_or_panic cfg s u pnl (max_bumps cfg) 0) as Hb.
    rewrite E in Hb. simpl. destruct o; simpl in Hb; try contradiction; discriminate.
  - apply Nat.leb_gt in Eb.
    destruct (monitor_loop f cfg w (Some u) (Some s) pnl ma
                (mkMonitorState (ms_signed_blob st) (ms_tx_hashes st) rj (S (ms_attempts st))
                   (S (ms_round st)))) as [o ev] eqn:E.
    simpl. intros Ho. subst o.
    apply (IH cfg w u s pnl ma (mkMonitorState (ms_signed_blob st) (ms_tx_hashes st) rj
                                  (S (ms_attempts st)) (S (ms_round st))));
      [lia|simpl; lia|rewrite E; reflexivity].
Qed.

(** X8: with unsigned transactions and a signer, the monitoring of
    [submit_and_monitor_with_rebump] always ends (in success, an error or a
    panic) within [max(1, max_wait_secs / poll_interval_secs)] polling
    rounds: the loop leaves for the bump phase, which never polls again. *)
Theorem submit_with_signer_terminates : forall fuel cfg w unsigned signer signed_blob relay
    expected_pnl,
  (1 <= fuel)%nat -> (Z.to_nat (max_wait_secs cfg / poll_interval_secs cfg) <= fuel)%nat ->
  fst (submit_and_monitor_with_rebump fuel cfg w (Some unsigned) (Some signer) signed_blob relay
         expected_pnl) <> ARunning.
Proof.
  intros fuel cfg w u s blob relay pnl H1 Hma. unfold submit_and_monitor_with_rebump.
  destruct (negb (aw_rpc_url_ok w)); [discriminate|].
  destruct (poll_interval_secs cfg =? 0); [discriminate|].
  destruct (monitor_loop fuel cfg w (Some u) (Some s) pnl
              (Z.to_nat (max_wait_secs cfg / poll_interval_secs cfg))
              (mkMonitorState blob (map keccak256 blob) [] 0 0)) as [o ev] eqn:E.
  simpl. intros Ho. subst o.
  apply (monitor_loop_signer_stops fuel cfg w u s pnl
           (Z.to_nat (max_wait_secs cfg / poll_interval_secs cfg))
           (mkMonitorState blob (map keccak256 blob) [] 0 0) H1);
    [simpl; lia|rewrite E; reflexivity].
Qed.

Lemma submit_with_signer_terminates_witness :
  fst (submit_and_monitor_with_rebump 15 cfg_kill_switch world_never_included (Some [ks_tx])
         (Some signer_const) blob_12 (mkRelayClient None) None) <> ARunning.
Proof.
  apply submit_with_signer_terminates; vm_compute; [lia|lia].
Defined.

Lemma flat_map_none : forall w round hashes,
  (forall h, aw_receipt w round h = None) ->
  flat_map (fun h => match aw_receipt w round h with Some r => [r] | None => [] end) hashes = [].
Proof.
  intros w round hashes Hn. induction hashes as [|h hs IH]; simpl; [reflexivity|].
  rewrite Hn. exact IH.
Qed.

Lemma monitor_loop_signer_no_success : forall fuel cfg w u s pnl ma st,
  ms_receipts_json st = [] -> ms_round st = ms_attempts st -> ms_tx_hashes st <> [] ->
  (forall k h, (k < Nat.max 1 ma)%nat -> aw_receipt w k h = None) ->
  (ms_attempts st < Nat.max 1 ma)%nat ->
  (1 <= fuel)%nat -> (ma <= fuel + ms_attempts st)%nat ->
  err_or_panic (fst (monitor_loop fuel cfg w (Some u) (Some s) pnl ma st)).
Proof.
  induction fuel as [|f IH]; intros cfg w u s pnl ma st Hrj Hround Hne Hn Ha H1 Hma; [lia|].
  cbn [monitor_loop]. rewrite poll_receipts_eq, Hrj, Hround.
  rewrite flat_map_none by (intros h; apply Hn; exact Ha). simpl app.
  destruct (ms_tx_hashes st) as [|h hs] eqn:Eh; [contradiction|].
  change (length (@nil Json) =? length (h :: hs))%nat with false.
  destruct (ma <=? S (ms_attempts st))%nat eqn:Eb.
  - destruct (max_retries cfg =? 0)%nat; [exact I|].
    destruct (bump_loop cfg s u pnl 0 (max_bumps cfg)) as [o ev2] eqn:E.
    pose proof (bump_loop_err_or_panic cfg s u pnl (max_bumps cfg) 0) as Hb.
    rewrite E in Hb. exact Hb.
  - apply Nat.leb_gt in Eb.
    destruct (monitor_loop f cfg w (Some u) (Some s) pnl ma
                (mkMonitorState (ms_signed_blob st) (h :: hs) [] (S (ms_attempts st))
                   (S (ms_attempts st)))) as [o ev] eqn:E.
    simpl.
    assert (Hi := IH cfg w u s pnl ma
                    (mkMonitorState (ms_signed_blob st) (h :: hs) [] (S (ms_attempts st))
                       (S (ms_attempts st)))
                    eq_refl eq_refl ltac:(discriminate) Hn ltac:(cbn [ms_attempts]; lia)
                    ltac:(lia) ltac:(cbn [ms_attempts]; lia)).
    rewrite E in Hi. exact Hi.
Qed.

(** X9: with unsigned transactions and a signer, when none of the bundle's
    transactions is included during the polling rounds before the bump
    phase, the call ends in an error or a panic: once it starts bumping it
    never polls again, so it never reports a success, even for a bumped
    transaction that gets mined. *)
Theorem submit_with_signer_no_late_success : forall fuel cfg w unsigned signer signed_blob
    relay expected_pnl,
  signed_blob <> [] ->
  (forall k h, (k < Nat.max 1 (Z.to_nat (max_wait_secs cfg / poll_interval_secs cfg)))%nat ->
     aw_receipt w k h = None) ->
  (1 <= fuel)%nat -> (Z.to_nat (max_wait_secs cfg / poll_interval_secs cfg) <= fuel)%nat ->
  match fst (submit_and_monitor_with_rebump fuel cfg w (Some unsigned) (Some signer) signed_blob
               relay expected_pnl) with
  | AErr _ | APanic _ => True
  | _ => False
  end.
Proof.
  intros fuel cfg w u s blob relay pnl Hne Hn H1 Hma. unfold submit_and_monitor_with_rebump.
  destruct (negb (aw_rpc_url_ok w)); [exact I|].
  destruct (poll_interval_secs cfg =? 0); [exact I|].
  destruct (monitor_loop fuel cfg w (Some u) (Some s) pnl
              (Z.to_nat (max_wait_secs cfg / poll_interval_secs cfg))
              (mkMonitorState blob (map keccak256 blob) [] 0 0)) as [o ev] eqn:E.
  simpl.
  assert (Hi := monitor_loop_signer_no_success fuel cfg w u s pnl
                  (Z.to_nat (max_wait_secs cfg / poll_interval_secs cfg))
                  (mkMonitorState blob (map keccak256 blob) [] 0 0) eq_refl eq_refl
                  ltac:(simpl; destruct blob; [contradiction|discriminate]) Hn
                  ltac:(cbn [ms_attempts]; lia) H1 ltac:(cbn [ms_attempts]; lia)).
  rewrite E in Hi. exact Hi.
Qed.

Lemma submit_with_signer_no_late_success_witness :
  match fst (submit_and_monitor_with_rebump 15 cfg_kill_switch world_never_included (Some [ks_tx])
               (Some signer_const) blob_12 (mkRelayClient None) None) with
  | AErr _ | APanic _ => True
  | _ => False
  end.
Proof.
  apply submit_with_signer_no_late_success.
  - discriminate.
  - intros k h _. reflexivity.
  - lia.
  - vm_compute. lia.
Defined.

Lemma monitor_loop_first_only : forall fuel cfg w u s pnl ma b0 rest r j st,
  (forall k, aw_receipt w k (keccak256 b0) = Some r) ->
  (forall k b, In b rest -> aw_receipt w k (keccak256 b) = None) ->
  ms_tx_hashes st = map keccak256 (b0 :: rest) ->
  ms_receipts_json st = repeat r j -> ms_attempts st = j ->
  (j < S (length rest))%nat -> (S (length rest) <= ma)%nat ->
  (S (length rest) <= fuel + j)%nat ->
  fst (monitor_loop fuel cfg w u s pnl ma st) = AOk (repeat r (S (length rest))).
Proof.
  induction fuel as [|f IH]; intros cfg w u s pnl ma b0 rest r j st Hr Hn Hh Hrj Ha Hj Hma Hf;
    [lia|].
  cbn [monitor_loop]. rewrite poll_receipts_eq, Hh, Hrj, Ha. cbn [map flat_map].
  rewrite Hr.
  assert (Hnil : flat_map (fun h => match aw_receipt w (ms_round st) h with
                                    | Some r0 => [r0] | None => [] end) (map keccak256 rest) = []).
  { clear -Hn. induction rest as [|b rest IHr]; simpl; [reflexivity|].
    rewrite Hn by (left; reflexivity). apply IHr. intros k b' Hb'. apply Hn. right. exact Hb'. }
  rewrite Hnil. simpl app.
  replace (repeat r j ++ [r]) with (repeat r (S j))
    by (rewrite <- repeat_cons; reflexivity).
  rewrite repeat_length. cbn [length]. rewrite length_map.
  destruct (S j =? S (length rest))%nat eqn:Eq.
  - apply Nat.eqb_eq in Eq. rewrite Eq. reflexivity.
  - apply Nat.eqb_neq in Eq.
    replace (ma <=? S j)%nat with false by (symmetry; apply Nat.leb_gt; lia).
    destruct (monitor_loop f cfg w u s pnl ma
                (mkMonitorState (ms_signed_blob st) (keccak256 b0 :: map keccak256 rest)
                   (repeat r (S j)) (S j) (S (ms_round st)))) as [o ev] eqn:E.
    simpl.
    assert (Hi := IH cfg w u s pnl ma b0 rest r (S j)
                    (mkMonitorState (ms_signed_blob st) (keccak256 b0 :: map keccak256 rest)
                       (repeat r (S j)) (S j) (S (ms_round st)))
                    Hr Hn eq_refl eq_refl eq_refl ltac:(lia) Hma ltac:(lia)).
    rewrite E in Hi. exact Hi.
Qed.

(** X10: when the node has a receipt for the first transaction of an
    [n]-transaction bundle in every polling round and never one for the
    others, [submit_and_monitor_with_rebump] (with or without a signer)
    returns success with [n] copies of the first receipt after [n] rounds,
    provided [n] rounds fit in [max_wait_secs / poll_interval_secs]:
    receipts are appended every round without checking which transaction
    they belong to. *)
Theorem submit_and_monitor_duplicate_receipts : forall fuel cfg w unsigned signer b0 rest relay
    expected_pnl r,
  aw_rpc_url_ok w = true -> 0 < poll_interval_secs cfg ->
  (S (length rest) <= Z.to_nat (max_wait_secs cfg / poll_interval_secs cfg))%nat ->
  (S (length rest) <= fuel)%nat ->
  (forall k, aw_receipt w k (keccak256 b0) = Some r) ->
  (forall k b, In b rest -> aw_receipt w k (keccak256 b) = None) ->
  fst (submit_and_monitor_with_rebump fuel cfg w unsigned signer (b0 :: rest) relay expected_pnl)
  = AOk (repeat r (S (length rest))).
Proof.
  intros fuel cfg w u s b0 rest relay pnl r Hurl Hp Hma Hf Hr Hn.
  unfold submit_and_monitor_with_rebump. rewrite Hurl.
  replace (poll_interval_secs cfg =? 0) with false by (symmetry; apply Z.eqb_neq; lia).
  cbn [negb].
  destruct (monitor_loop fuel cfg w u s pnl (Z.to_nat (max_wait_secs cfg / poll_interval_secs cfg))
              (mkMonitorState (b0 :: rest) (map keccak256 (b0 :: rest)) [] 0 0)) as [o ev] eqn:E.
  simpl.
  assert (Hi := monitor_loop_first_only fuel cfg w u s pnl
                  (Z.to_nat (max_wait_secs cfg / poll_interval_secs cfg)) b0 rest r 0
                  (mkMonitorState (b0 :: rest) (map keccak256 (b0 :: rest)) [] 0 0)
                  Hr Hn eq_refl eq_refl eq_refl ltac:(lia) Hma ltac:(lia)).
  rewrite E in Hi. exact Hi.
Qed.

Lemma submit_and_monitor_duplicate_receipts_witness :
  fst (submit_and_monitor_with_rebump 2 cfg_kill_switch world_first_only None None
         [[Byte.x01]; [Byte.x02]] (mkRelayClient None) None)
  = AOk (repeat receipt_json (S (length [[Byte.x02]]))).
Proof.
  apply submit_and_monitor_duplicate_receipts.
  - reflexivity.
  - vm_compute. reflexivity.
  - vm_compute. lia.
  - cbn. lia.
  - intros k. vm_compute. reflexivity.
  - intros k b [<-|[]]. vm_compute. reflexivity.
Defined.

Lemma flat_map_all_some : forall w round blob rcs,
  Forall2 (fun b j => aw_receipt w round (keccak256 b) = Some j) blob rcs ->
  flat_map (fun h => match aw_receipt w round h with Some r => [r] | None => [] end)
           (map keccak256 blob) = rcs.
Proof.
  intros w round blob rcs H. induction H as [|b j blob rcs Hb _ IH]; simpl; [reflexivity|].
  rewrite Hb, IH. reflexivity.
Qed.

(** X11: when every transaction of the bundle has its receipt in the first
    polling round, [submit_and_monitor_with_rebump] returns those receipts in
    the bundle's order; after the relay call it only sends each transaction
    once and asks once for each receipt: no sleep, no re-send, no
    re-signing. *)
Theorem submit_and_monitor_first_round : forall fuel cfg w unsigned signer signed_blob relay
    expected_pnl rcs,
  aw_rpc_url_ok w = true -> 0 < poll_interval_secs cfg -> (1 <= fuel)%nat ->
  Forall2 (fun b j => aw_receipt w 0 (keccak256 b) = Some j) signed_blob rcs ->
  submit_and_monitor_with_rebump fuel cfg w unsigned signer signed_blob relay expected_pnl
  = (AOk rcs,
     map ERelay (snd (submit_flashbots_bundle (aw_post w) relay signed_blob None))
     ++ map ESend signed_blob ++ map (fun b => EGetReceipt (keccak256 b)) signed_blob).
Proof.
  intros fuel cfg w u s blob relay pnl rcs Hurl Hp Hf Hall.
  unfold submit_and_monitor_with_rebump. rewrite Hurl.
  replace (poll_interval_secs cfg =? 0) with false by (symmetry; apply Z.eqb_neq; lia).
  cbn [negb].
  destruct fuel as [|f]; [lia|]. cbn [monitor_loop ms_round ms_tx_hashes ms_receipts_json].
  rewrite poll_receipts_eq, (flat_map_all_some _ _ _ _ Hall). simpl app.
  rewrite length_map, (Forall2_length Hall), Nat.eqb_refl, map_map. reflexivity.
Qed.

Lemma submit_and_monitor_first_round_witness :
  submit_and_monitor_with_rebump 1 cfg_kill_switch world_all_included None None blob_12
    (mkRelayClient None) None
  = (AOk [receipt_json; receipt_json],
     map ERelay (snd (submit_flashbots_bundle (aw_post world_all_included) (mkRelayClient None)
                        blob_12 None))
     ++ map ESend blob_12 ++ map (fun b => EGetReceipt (keccak256 b)) blob_12).
Proof.
  apply submit_and_monitor_first_round.
  - reflexivity.
  - vm_compute. reflexivity.
  - lia.
  - repeat constructor.
Defined.

Lemma monitor_loop_no_retries : forall fuel cfg w u s pnl ma st,
  max_retries cfg = 0%nat -> ms_receipts_json st = [] -> ms_tx_hashes st <> [] ->
  (forall k h, aw_receipt w k h = None) ->
  (1 <= fuel)%nat -> (ma <= fuel + ms_attempts st)%nat ->
  fst (monitor_loop fuel cfg w u s pnl ma st)
  = AErr "timed out waiting for inclusion and no retries configured".
Proof.
  induction fuel as [|f IH]; intros cfg w u s pnl ma st Hr Hrj Hne Hn H1 Hma; [lia|].
  cbn [monitor_loop]. rewrite poll_receipts_eq, Hrj.
  rewrite flat_map_none by (intros h; apply Hn). simpl app.
  destruct (ms_tx_hashes st) as [|h hs] eqn:Eh; [contradiction|].
  change (length (@nil Json) =? length (h :: hs))%nat with false.
  destruct (ma <=? S (ms_attempts st))%nat eqn:Eb.
  - rewrite Hr. reflexivity.
  - apply Nat.leb_gt in Eb.
    destruct (monitor_loop f cfg w u s pnl ma
                (mkMonitorState (ms_signed_blob st) (h :: hs) [] (S (ms_attempts st))
                   (S (ms_round st)))) as [o ev] eqn:E.
    simpl.
    assert (Hi := IH cfg w u s pnl ma
                    (mkMonitorState (ms_signed_blob st) (h :: hs) [] (S (ms_attempts st))
                       (S (ms_round st)))
                    Hr eq_refl ltac:(discriminate) Hn ltac:(lia) ltac:(cbn [ms_attempts]; lia)).
    rewrite E in Hi. exact Hi.
Qed.

(** X12: with [max_retries = 0] and a node that never includes the
    bundle, [submit_and_monitor_with_rebump] (with or without a signer)
    gives up with the error "timed out waiting for inclusion and no retries
    configured" after [max(1, max_wait_secs / poll_interval_secs)] polling
    rounds, without re-sending or bumping. *)
Theorem submit_and_monitor_no_retries_timeout : forall fuel cfg w unsigned signer signed_blob relay
    expected_pnl,
  aw_rpc_url_ok w = true -> 0 < poll_interval_secs cfg -> max_retries cfg = 0%nat ->
  signed_blob <> [] -> (forall k h, aw_receipt w k h = None) ->
  (1 <= fuel)%nat -> (Z.to_nat (max_wait_secs cfg / poll_interval_secs cfg) <= fuel)%nat ->
  fst (submit_and_monitor_with_rebump fuel cfg w unsigned signer signed_blob relay expected_pnl)
  = AErr "timed out waiting for inclusion and no retries configured".
Proof.
  intros fuel cfg w u s blob relay pnl Hurl Hp Hr Hne Hn H1 Hma.
  unfold submit_and_monitor_with_rebump. rewrite Hurl.
  replace (poll_interval_secs cfg =? 0) with false by (symmetry; apply Z.eqb_neq; lia).
  cbn [negb].
  destruct (monitor_loop fuel cfg w u s pnl (Z.to_nat (max_wait_secs cfg / poll_interval_secs cfg))
              (mkMonitorState blob (map keccak256 blob) [] 0 0)) as [o ev] eqn:E.
  simpl.
  assert (Hi := monitor_loop_no_retries fuel cfg w u s pnl
                  (Z.to_nat (max_wait_secs cfg / poll_interval_secs cfg))
                  (mkMonitorState blob (map keccak256 blob) [] 0 0) Hr eq_refl
                  ltac:(cbn [ms_tx_hashes]; destruct blob; [contradiction|discriminate]) Hn H1
                  ltac:(cbn [ms_attempts]; lia)).
  rewrite E in Hi. exact Hi.
Qed.

Lemma submit_and_monitor_no_retries_timeout_witness :
  fst (submit_and_monitor_with_rebump 2 cfg_no_retries world_never_included (Some [ks_tx])
         (Some signer_const) blob_12 (mkRelayClient None) None)
  = AErr "timed out waiting for inclusion and no retries configured".
Proof.
  apply submit_and_monitor_no_retries_timeout.
  - reflexivity.
  - vm_compute. reflexivity.
  - reflexivity.
  - discriminate.
  - intros k h. reflexivity.
  - lia.
  - vm_compute. lia.
Defined.

(* ------------------------------------------------------------------ *)
(** ** Hex round trips *)

Lemma hex_digit_facts : forall d, 0 <= d < 16 ->
  hex_val (hex_digit d) = Some d /\ Ascii.eqb (hex_digit d) "x" = false /\
  Ascii.eqb (hex_digit d) "+" = false /\ Ascii.eqb (hex_digit d) "-" = false.
Proof.
  intros d Hd.
  replace d with (Z.of_nat (Z.to_nat d)) by lia.
  assert (Hm : (Z.to_nat d < 16)%nat) by lia. revert Hm. generalize (Z.to_nat d) as m.
  intros m Hm. do 16 (destruct m as [|m]; [vm_compute; repeat split; reflexivity|]). lia.
Qed.

Lemma Z_to_byte_to_Z : forall b, Z_to_byte (byte_to_Z b) = b.
Proof. intros b. destruct b; reflexivity. Qed.

Lemma byte_to_Z_range : forall b, 0 <= byte_to_Z b < 256.
Proof. intros b. destruct b; vm_compute; split; congruence. Qed.

Lemma div_mod_16 : forall x, x = 16 * (x / 16) + x mod 16 /\ 0 <= x mod 16 < 16.
Proof. intros x. split; [apply Z.div_mod; lia|apply Z.mod_pos_bound; lia]. Qed.

Lemma hex_decode_encode : forall bs, hex_decode (hex_encode bs) = Some bs.
Proof.
  intros bs. unfold hex_decode, hex_encode. rewrite list_ascii_of_string_of_list_ascii.
  induction bs as [|b bs IH]; [reflexivity|].
  cbn [flat_map app hex_decode_chars].
  pose proof (byte_to_Z_range b) as Hb. pose proof (div_mod_16 (byte_to_Z b)) as Hq.
  destruct (hex_digit_facts (byte_to_Z b / 16) ltac:(lia)) as [H1 _].
  destruct (hex_digit_facts (byte_to_Z b mod 16) ltac:(lia)) as [H2 _].
  rewrite H1, H2, IH.
  replace (16 * (byte_to_Z b / 16) + byte_to_Z b mod 16) with (byte_to_Z b) by lia.
  rewrite Z_to_byte_to_Z. reflexivity.
Qed.

Lemma strip_prefix_0x_append : forall s, strip_prefix_0x (String.append "0x" s) = Some s.
Proof. reflexivity. Qed.

Lemma decode_hex_items_bundle : forall signed,
  decode_hex_items (map (fun s => JStr (String.append "0x" (hex_encode s))) signed) = Some signed.
Proof.
  induction signed as [|s signed IH]; [reflexivity|].
  cbn [map decode_hex_items]. rewrite strip_prefix_0x_append. cbn [obind].
  rewrite hex_decode_encode, IH. reflexivity.
Qed.

(** X13: every transaction of [bundle_from_signed_txs] reads back: the
    array holds one string per signed transaction, in order, and removing
    its ["0x"] and hex-decoding it gives the transaction's bytes again. *)
Theorem bundle_from_signed_txs_roundtrip : forall signed,
  decode_hex_array (bundle_from_signed_txs signed) = Some signed.
Proof. intros signed. apply decode_hex_items_bundle. Qed.

Lemma hex_u64_digits_hex : forall f n acc,
  0 <= n -> Forall hex_char acc -> Forall hex_char (hex_u64_digits f n acc).
Proof.
  induction f as [|f IH]; intros n acc Hn Hacc; simpl; [exact Hacc|].
  assert (Hd : Forall hex_char (hex_digit (n mod 16) :: acc))
    by (pose proof (div_mod_16 n); constructor; [exists (n mod 16); split; [lia|reflexivity]|exact Hacc]).
  destruct (n <? 16); [exact Hd|]. apply IH; [|exact Hd].
  apply Z.div_pos; lia.
Qed.

Lemma hex_u64_digits_nonempty : forall f n acc, acc <> [] -> hex_u64_digits f n acc <> [].
Proof.
  induction f as [|f IH]; intros n acc Hacc; simpl; [exact Hacc|].
  destruct (n <? 16); [discriminate|]. apply IH. discriminate.
Qed.

Lemma hex_u64_digits_S_nonempty : forall f n acc, hex_u64_digits (S f) n acc <> [].
Proof.
  intros f n acc. cbn [hex_u64_digits].
  destruct (n <? 16); [discriminate|]. apply hex_u64_digits_nonempty. discriminate.
Qed.

Lemma hex_u64_digits_parse : forall f n acc,
  0 <= n -> n <= u64_max -> n < 16 ^ Z.of_nat f ->
  u64_digits_16 (hex_u64_digits f n acc) 0 = u64_digits_16 acc n.
Proof.
  induction f as [|f IH]; intros n acc Hn Hmax Hf.
  - simpl in Hf. replace n with 0 by lia. reflexivity.
  - rewrite Nat2Z.inj_succ, Z.pow_succ_r in Hf by lia.
    set (P := 16 ^ Z.of_nat f) in *. pose proof (div_mod_16 n) as Hq.
    cbn [hex_u64_digits].
    destruct (hex_digit_facts (n mod 16) ltac:(lia)) as [Hv _].
    destruct (n <? 16) eqn:E.
    + apply Z.ltb_lt in E. cbn [u64_digits_16]. rewrite Hv.
      replace (0 * 16 + n mod 16) with n by (rewrite Z.mod_small; lia).
      replace (u64_max <? n) with false by (symmetry; apply Z.ltb_ge; lia). reflexivity.
    + apply Z.ltb_ge in E. rewrite IH; [|apply Z.div_pos; lia|unfold u64_max in *; lia|lia].
      cbn [u64_digits_16]. rewrite Hv.
      replace (n / 16 * 16 + n mod 16) with n by lia.
      replace (u64_max <? n) with false by (symmetry; apply Z.ltb_ge; lia). reflexivity.
Qed.

Lemma trim_start_0x_hex : forall cs, Forall hex_char cs -> trim_start_0x cs = cs.
Proof.
  intros [|c0 [|c1 rest]] H; try reflexivity.
  inversion H as [|? ? _ H']; subst. inversion H' as [|? ? [d [Hd ->]] _]; subst.
  cbn [trim_start_0x]. destruct (hex_digit_facts d Hd) as [_ [Hx _]].
  rewrite Hx, andb_false_r. reflexivity.
Qed.

Lemma trim_start_0x_0x : forall cs, trim_start_0x ("0"%char :: "x"%char :: cs) = trim_start_0x cs.
Proof. reflexivity. Qed.

Lemma hex_quantity_hex_u64 : forall n, 0 <= n <= u64_max ->
  hex_quantity (JStr (String.append "0x" (hex_u64 n))) = Some n.
Proof.
  intros n Hn. unfold hex_quantity, hex_u64.
  change (list_ascii_of_string (String.append "0x" (string_of_list_ascii (hex_u64_digits 16 n []))))
    with ("0"%char :: "x"%char :: list_ascii_of_string (string_of_list_ascii (hex_u64_digits 16 n []))).
  rewrite list_ascii_of_string_of_list_ascii, trim_start_0x_0x.
  pose proof (hex_u64_digits_hex 16 n [] ltac:(lia) (Forall_nil _)) as Hall.
  rewrite (trim_start_0x_hex _ Hall).
  unfold u64_from_str_radix_16. rewrite list_ascii_of_string_of_list_ascii.
  destruct (hex_u64_digits 16 n []) as [|c rest] eqn:Eds.
  - exfalso. exact (hex_u64_digits_S_nonempty 15 n [] Eds).
  - apply Forall_inv in Hall. destruct Hall as [d [Hd Hc]]. subst c.
    destruct (hex_digit_facts d Hd) as [_ [_ [Hp Hm]]]. rewrite Hp, Hm. cbn [orb andb].
    rewrite <- Eds, hex_u64_digits_parse; [reflexivity|lia|lia|].
    unfold u64_max in Hn. simpl. lia.
Qed.

(** X14: a [newHeads] notification whose block number is written as
    [format!("0x{:x}", n)] (the encoding the relay client uses for
    [blockNumber]) yields exactly [n] in [MarketDataClient::start], for
    every [n] of [u64]. *)
Theorem head_block_number_roundtrip : forall n, 0 <= n <= u64_max ->
  head_block_number (head_notification (String.append "0x" (hex_u64 n))) = Some n.
Proof.
  intros n Hn. unfold head_block_number. cbn [json_get find fst String.eqb obind].
  apply hex_quantity_hex_u64, Hn.
Qed.

Lemma head_block_number_roundtrip_witness :
  head_block_number (head_notification (String.append "0x" (hex_u64 u64_max))) = Some u64_max.
Proof. apply head_block_number_roundtrip. unfold u64_max. lia. Defined.

Lemma relay_call_carries_bundle : forall post url method e1 e2 signed bn,
  (forall n, bn = Some n -> 0 <= n <= u64_max) ->
  carries_bundle url signed bn
    (snd (relay_call post (mkRelayClient (Some url)) method e1 e2 signed bn)).
Proof.
  intros post url method e1 e2 signed bn Hbn. unfold relay_call. cbn [relay_url].
  set (req := mkRequest url (rpc_envelope method (bundle_params signed bn))).
  assert (Hs : snd (match post req with
                    | Err _ => (Err e1, [req])
                    | Ok resp => match resp_json resp with
                                 | Some v => (Ok v, [req])
                                 | None => (Err e2, [req]) end end) = [req])
    by (destruct (post req) as [resp|]; [destruct (resp_json resp)|]; reflexivity).
  rewrite Hs. exists req, (bundle_params signed bn).
  split; [reflexivity|]. split; [reflexivity|]. split; [reflexivity|].
  destruct bn as [n|]; cbn [bundle_params app json_get find fst String.eqb obind].
  - split; [apply decode_hex_items_bundle|].
    apply hex_quantity_hex_u64, Hbn. reflexivity.
  - split; [apply decode_hex_items_bundle|reflexivity].
Qed.

(** X15: with a relay configured, [submit_flashbots_bundle] and
    [simulate_flashbots_bundle] post exactly one request, to the relay URL,
    whatever the relay answers; its [params[0].txs] reads back (hex-decoded
    after ["0x"]) as the signed transactions in order, and its
    [params[0].blockNumber] is present exactly when a block number is given
    and reads back as it. *)
Theorem relay_requests_carry_bundle : forall post url signed_txs block_number,
  (forall n, block_number = Some n -> 0 <= n <= u64_max) ->
  carries_bundle url signed_txs block_number
    (snd (submit_flashbots_bundle post (mkRelayClient (Some url)) signed_txs block_number)) /\
  carries_bundle url signed_txs block_number
    (snd (simulate_flashbots_bundle post (mkRelayClient (Some url)) signed_txs block_number)).
Proof.
  intros post url signed bn Hbn. split; apply relay_call_carries_bundle, Hbn.
Qed.

Lemma relay_requests_carry_bundle_witness :
  carries_bundle "http://relay" [[Byte.x01; Byte.x02; Byte.x03]] (Some 12345)
    (snd (submit_flashbots_bundle relay_ok (mkRelayClient (Some "http://relay"%string))
            [[Byte.x01; Byte.x02; Byte.x03]] (Some 12345))) /\
  carries_bundle "http://relay" [[Byte.x01; Byte.x02; Byte.x03]] (Some 12345)
    (snd (simulate_flashbots_bundle relay_ok (mkRelayClient (Some "http://relay"%string))
            [[Byte.x01; Byte.x02; Byte.x03]] (Some 12345))).
Proof.
  apply relay_requests_carry_bundle. intros n Hn. inversion Hn; subst. unfold u64_max. lia.
Defined.

(* ------------------------------------------------------------------ *)
(** ** The [v] of remote signatures *)

Lemma enforce_low_s_v : forall r s v, 27 <= v <= 30 -> 27 <= sig_v (enforce_low_s r s v) <= 30.
Proof.
  intros r s v Hv. unfold enforce_low_s.
  destruct (half_n <? s); cbn [sig_v]; [destruct (v =? 27)|]; lia.
Qed.

Lemma der_recid_loop_v : forall z r s e ids sg,
  Forall (fun rid => 0 <= rid <= 3) ids ->
  der_recid_loop z r s e ids = Ok sg -> 27 <= sig_v sg <= 30.
Proof.
  intros z r s e ids sg Hids. induction Hids as [|rid ids Hrid _ IH]; cbn [der_recid_loop];
    [discriminate|].
  destruct (negb (compact_ok r s)); [discriminate|].
  destruct (Secp256k1.recover z r s rid) as [pk|]; [|exact IH].
  destruct (address_matches e (address_of pk)); [|exact IH].
  intros H. injection H as <-. apply enforce_low_s_v. lia.
Qed.

Lemma compact64_loop_v : forall z r s ids sg,
  Forall (fun rid => 0 <= rid <= 3) ids ->
  compact64_loop z r s ids = Some sg -> 27 <= sig_v sg <= 30.
Proof.
  intros z r s ids sg Hids. induction Hids as [|rid ids Hrid _ IH]; cbn [compact64_loop];
    [discriminate|].
  destruct (compact_ok r s); [|exact IH].
  destruct (Secp256k1.recover z r s rid); [|exact IH].
  intros H. injection H as <-. cbn [sig_v]. lia.
Qed.

Lemma recovery_ids_range : Forall (fun rid => 0 <= rid <= 3) [0; 1; 2; 3].
Proof. repeat constructor; lia. Qed.

Lemma resolve_remote_signature_v : forall bs sh sg,
  length bs <> 65%nat -> resolve_remote_signature bs sh = Ok sg -> 27 <= sig_v sg <= 30.
Proof.
  intros bs sh sg Hlen Er. unfold resolve_remote_signature in Er.
  destruct (der_to_ethers_signature bs sh None) as [sg1|] eqn:Ed.
  - injection Er as <-. unfold der_to_ethers_signature in Ed.
    destruct (parse_der bs) as [[r s]|]; [|discriminate].
    destruct (negb (length sh =? 32)%nat); [discriminate|].
    exact (der_recid_loop_v _ _ _ _ _ _ recovery_ids_range Ed).
  - apply Nat.eqb_neq in Hlen. rewrite Hlen in Er.
    destruct (length bs =? 64)%nat; [|discriminate].
    destruct (negb (length sh =? 32)%nat); [discriminate|].
    destruct (compact64_loop _ _ _ _) as [sg1|] eqn:Ec; [|discriminate].
    injection Er as <-. exact (compact64_loop_v _ _ _ _ _ recovery_ids_range Ec).
Qed.

Lemma rlp_normalize_v_panics : forall v c, 2 <= v <= 34 -> 0 <= c -> rlp_normalize_v v c = None.
Proof.
  intros v c Hv Hc. unfold rlp_normalize_v.
  rewrite (proj2 (Z.leb_gt _ _)) by lia.
  destruct (u64_max <? c * 2); [reflexivity|].
  destruct (v <? c * 2); [reflexivity|].
  rewrite (proj2 (Z.ltb_lt _ _)) by lia. reflexivity.
Qed.

(** X16: let the remote's response not be 65 bytes long (DER, or a
    64-byte [r || s]) and the chain id be non-negative.  An error of the
    remote or of the reconstruction is returned as is.  Otherwise the
    signature's [v] is [27 + id] for a recovery id in [0..3], and
    [tx.rlp_signed] then behaves by type: a legacy transaction is signed
    with that [v]; an EIP-2930 transaction always panics in [normalize_v];
    an EIP-1559 transaction, whose [v] has become the id, is signed with it
    for ids 0 and 1 and panics in [normalize_v] for ids 2 and 3. *)
Theorem sign_typed_transaction_remote_v : forall sign_digest tx sighash,
  (forall sig_bytes, sign_digest sighash = Ok sig_bytes -> length sig_bytes <> 65%nat) ->
  0 <= chain_id_or_one (tx_chain_id tx) ->
  (forall e, remote_signature sign_digest tx sighash = Err e ->
     sign_typed_transaction_remote sign_digest tx sighash = Some (Err e)) /\
  (forall sg, remote_signature sign_digest tx sighash = Ok sg ->
     match tx with
     | Legacy _ =>
         27 <= sig_v sg <= 30 /\
         sign_typed_transaction_remote sign_digest tx sighash = Some (Ok (tx, sg))
     | Eip2930 _ => sign_typed_transaction_remote sign_digest tx sighash = None
     | Eip1559 _ =>
         0 <= sig_v sg <= 3 /\
         (sig_v sg <= 1 ->
          sign_typed_transaction_remote sign_digest tx sighash = Some (Ok (tx, sg))) /\
         (2 <= sig_v sg -> sign_typed_transaction_remote sign_digest tx sighash = None)
     end).
Proof.
  intros sd tx sh Hlen Hc. unfold sign_typed_transaction_remote. split.
  { intros e ->. reflexivity. }
  intros sg Hsg. rewrite Hsg. unfold remote_signature in Hsg.
  destruct (sd sh) as [bs|] eqn:Esd; [|discriminate].
  specialize (Hlen bs eq_refl).
  destruct (resolve_remote_signature bs sh) as [sg0|] eqn:Er; [|discriminate].
  injection Hsg as <-.
  pose proof (resolve_remote_signature_v _ _ _ Hlen Er) as Hv.
  destruct sg0 as [r s v]. cbn [sig_v] in Hv.
  destruct tx as [req|req|req]; cbn [normalize_v rlp_signed sig_r sig_s sig_v];
    cbn [tx_chain_id] in Hc.
  - split; [exact Hv|reflexivity].
  - rewrite rlp_normalize_v_panics by lia. reflexivity.
  - replace (27 <=? v) with true by (symmetry; apply Z.leb_le; lia).
    split; [lia|]. split.
    + intros Hle. unfold rlp_normalize_v.
      rewrite (proj2 (Z.leb_le _ _) Hle). reflexivity.
    + intros Hge. rewrite rlp_normalize_v_panics by lia. reflexivity.
Qed.

(* ------------------------------------------------------------------ *)
(** ** The price scanner *)

Lemma tl_skipn : forall A k (l : list A), tl (skipn k l) = skipn (S k) l.
Proof. intros A k. induction k as [|k IH]; intros [|x l]; try reflexivity. apply IH. Qed.

Lemma lastn_snoc : forall A ws (h : list A) p, (1 <= ws)%nat ->
  lastn ws (h ++ [p]) =
  (if (length (lastn ws h) =? ws)%nat then tl (lastn ws h) else lastn ws h) ++ [p].
Proof.
  intros A ws h p Hws. unfold lastn. rewrite length_app, length_skipn. cbn [length].
  destruct (Nat.le_gt_cases ws (length h)) as [Hle|Hlt].
  - replace (length h - (length h - ws))%nat with ws by lia. rewrite Nat.eqb_refl.
    rewrite tl_skipn, skipn_app.
    replace (length h + 1 - ws - length h)%nat with 0%nat by lia.
    replace (length h + 1 - ws)%nat with (S (length h - ws)) by lia. reflexivity.
  - replace (length h - ws)%nat with 0%nat by lia.
    replace (length h + 1 - ws)%nat with 0%nat by lia.
    replace (length h - 0 =? ws)%nat with false by (symmetry; apply Nat.eqb_neq; lia).
    reflexivity.
Qed.

Lemma length_lastn : forall A ws (h : list A), length (lastn ws h) = Nat.min ws (length h).
Proof. intros A ws h. unfold lastn. rewrite length_skipn. lia. Qed.

Lemma process_quote_window : forall ws th h q, (1 <= ws)%nat ->
  exists out,
    process_quote (mkScanner ws th (lastn ws h)) q =
      Some (mkScanner ws th (lastn ws (h ++ [q_price q])), out) /\
    ((length h + 1 < ws)%nat -> out = None).
Proof.
  intros ws th h q Hws. unfold process_quote. cbn [prices window_size threshold_pct].
  rewrite (lastn_snoc _ ws h (q_price q) Hws).
  assert (Hrem : exists ps,
    (if (length (lastn ws h) =? ws)%nat then
       match lastn ws h with [] => None | _ :: rest => Some rest end
     else Some (lastn ws h)) = Some ps /\
    ps = (if (length (lastn ws h) =? ws)%nat then tl (lastn ws h) else lastn ws h)).
  { destruct (length (lastn ws h) =? ws)%nat eqn:E; [|eexists; split; reflexivity].
    apply Nat.eqb_eq in E.
    destruct (lastn ws h) as [|x rest]; [cbn [length] in E; lia|].
    eexists; split; reflexivity. }
  destruct Hrem as [ps [-> Eps]].
  assert (Hlen : length (ps ++ [q_price q]) = Nat.min ws (length h + 1)).
  { rewrite Eps, <- lastn_snoc by exact Hws. rewrite length_lastn, length_app. reflexivity. }
  rewrite <- Eps.
  destruct (length (ps ++ [q_price q]) <? ws)%nat eqn:Elt;
    [exists None; split; [reflexivity|intros; reflexivity]|].
  apply Nat.ltb_ge in Elt.
  destruct (f64_ge _ _); eexists; (split; [reflexivity|]); intros Hlt; [exfalso; lia|reflexivity].
Qed.

Lemma scan_quotes_window_from : forall ws th qs h, (1 <= ws)%nat ->
  exists outs,
    scan_quotes (mkScanner ws th (lastn ws h)) qs =
      Some (mkScanner ws th (lastn ws (h ++ map q_price qs)), outs) /\
    length outs = length qs /\
    Forall (fun o => o = None) (firstn (ws - 1 - length h) outs).
Proof.
  intros ws th qs. induction qs as [|q qs IH]; intros h Hws.
  - exists []. rewrite app_nil_r. split; [reflexivity|]. split; [reflexivity|].
    rewrite firstn_nil. constructor.
  - destruct (process_quote_window ws th h q Hws) as [out [Hq Hout]].
    destruct (IH (h ++ [q_price q]) Hws) as [outs [Hs [Hl Hf]]].
    exists (out :: outs). cbn [scan_quotes]. rewrite Hq, Hs, <- app_assoc.
    split; [reflexivity|]. split; [cbn [length]; lia|].
    rewrite length_app in Hf. cbn [length] in Hf.
    destruct (ws - 1 - length h)%nat as [|m] eqn:Em; [constructor|].
    rewrite firstn_cons. constructor; [apply Hout; lia|].
    replace m with (ws - 1 - (length h + 1))%nat by lia. exact Hf.
Qed.

(** X17: a scanner with a window of at least one quote never panics on
    any sequence of quotes; afterwards its window holds the last
    [window_size] prices received (all of them while fewer arrived), and
    the first [window_size - 1] quotes report no opportunity. *)
Theorem scan_quotes_window : forall window_size threshold_pct qs,
  (1 <= window_size)%nat ->
  exists outs,
    scan_quotes (scanner_new window_size threshold_pct) qs =
      Some (mkScanner window_size threshold_pct (lastn window_size (map q_price qs)), outs) /\
    length outs = length qs /\
    Forall (fun o => o = None) (firstn (window_size - 1) outs).
Proof.
  intros ws th qs Hws.
  destruct (scan_quotes_window_from ws th qs [] Hws) as [outs [Hs [Hl Hf]]].
  exists outs. split; [exact Hs|]. split; [exact Hl|].
  cbn [length] in Hf. rewrite Nat.sub_0_r in Hf. exact Hf.
Qed.

Lemma scan_quotes_window_witness :
  exists outs,
    scan_quotes (scanner_new 3 f64_1_25) (map quote_at [f64_one; f64_100; f64_1_25; f64_one]) =
      Some (mkScanner 3 f64_1_25 (lastn 3 (map q_price (map quote_at [f64_one; f64_100; f64_1_25; f64_one]))), outs) /\
    length outs = length (map quote_at [f64_one; f64_100; f64_1_25; f64_one]) /\
    Forall (fun o => o = None) (firstn (3 - 1) outs).
Proof. apply scan_quotes_window. lia. Defined.

(** X18: a scanner created with a window of zero quotes panics on its
    first quote: its empty price list already has the window's length, so
    [process_quote] calls [remove(0)] on an empty vector. *)
Theorem process_quote_zero_window_panics : forall threshold_pct q,
  process_quote (scanner_new 0 threshold_pct) q = None.
Proof. reflexivity. Qed.

(* ------------------------------------------------------------------ *)
(** ** Base64 round trip *)

Lemma base64_char_facts : forall d, 0 <= d < 64 ->
  base64_val (base64_char d) = Some d /\ Ascii.eqb (base64_char d) "=" = false.
Proof.
  intros d Hd.
  replace d with (Z.of_nat (Z.to_nat d)) by lia.
  assert (Hm : (Z.to_nat d < 64)%nat) by lia. revert Hm. generalize (Z.to_nat d) as m.
  intros m Hm. do 64 (destruct m as [|m]; [vm_compute; split; reflexivity|]). lia.
Qed.

Lemma Z_to_byte_mod : forall z, Z_to_byte z = Z_to_byte (z mod 256).
Proof. intros z. unfold Z_to_byte. rewrite Zmod_mod. reflexivity. Qed.

Lemma eqb_pad : Ascii.eqb "=" "=" = true.
Proof. reflexivity. Qed.

Lemma base64_arith3 : forall A B C, 0 <= A < 256 -> 0 <= B < 256 -> 0 <= C < 256 ->
  let n := A * 65536 + B * 256 + C in
  let m := n / 262144 * 262144 + n / 4096 mod 64 * 4096 + n / 64 mod 64 * 64 + n mod 64 in
  0 <= n / 262144 < 64 /\ 0 <= n / 4096 mod 64 < 64 /\ 0 <= n / 64 mod 64 < 64 /\
  0 <= n mod 64 < 64 /\ m / 65536 = A /\ (m / 256) mod 256 = B /\ m mod 256 = C.
Proof. intros A B C HA HB HC n m. subst n m. Z.div_mod_to_equations. lia. Qed.

Lemma base64_arith2 : forall A B, 0 <= A < 256 -> 0 <= B < 256 ->
  let n := A * 65536 + B * 256 in
  let m := n / 262144 * 262144 + n / 4096 mod 64 * 4096 + n / 64 mod 64 * 64 in
  0 <= n / 262144 < 64 /\ 0 <= n / 4096 mod 64 < 64 /\ 0 <= n / 64 mod 64 < 64 /\
  m / 65536 = A /\ (m / 256) mod 256 = B.
Proof. intros A B HA HB n m. subst n m. Z.div_mod_to_equations. lia. Qed.

Lemma base64_arith1 : forall A, 0 <= A < 256 ->
  let n := A * 65536 in
  0 <= n / 262144 < 64 /\ 0 <= n / 4096 mod 64 < 64 /\
  (n / 262144 * 262144 + n / 4096 mod 64 * 4096) / 65536 = A.
Proof. intros A HA n. subst n. Z.div_mod_to_equations. lia. Qed.

Lemma base64_decode_chunks : forall f bs, (length bs <= f)%nat ->
  base64_decode_chars (base64_chunks f bs) = Some bs.
Proof.
  induction f as [|f IH]; intros bs Hlen.
  - destruct bs; [reflexivity|cbn [length] in Hlen; lia].
  - destruct bs as [|a [|b [|c rest]]]; [reflexivity| | |].
    + destruct (base64_arith1 (byte_to_Z a) (byte_to_Z_range a)) as [H0 [H1 Ha]].
      destruct (base64_char_facts _ H0) as [V0 _]. destruct (base64_char_facts _ H1) as [V1 _].
      cbn [base64_chunks base64_decode_chars]. rewrite eqb_pad, V0, V1, Ha, Z_to_byte_to_Z.
      reflexivity.
    + destruct (base64_arith2 (byte_to_Z a) (byte_to_Z b) (byte_to_Z_range a) (byte_to_Z_range b))
        as [H0 [H1 [H2 [Ha Hb]]]].
      destruct (base64_char_facts _ H0) as [V0 _]. destruct (base64_char_facts _ H1) as [V1 _].
      destruct (base64_char_facts _ H2) as [V2 E2].
      cbn [base64_chunks base64_decode_chars]. rewrite eqb_pad, E2, V0, V1, V2, Ha.
      rewrite (Z_to_byte_mod (_ / 256)), Hb, !Z_to_byte_to_Z. reflexivity.
    + destruct (base64_arith3 (byte_to_Z a) (byte_to_Z b) (byte_to_Z c)
        (byte_to_Z_range a) (byte_to_Z_range b) (byte_to_Z_range c))
        as [H0 [H1 [H2 [H3 [Ha [Hb Hc]]]]]].
      destruct (base64_char_facts _ H0) as [V0 _]. destruct (base64_char_facts _ H1) as [V1 _].
      destruct (base64_char_facts _ H2) as [V2 _]. destruct (base64_char_facts _ H3) as [V3 E3].
      cbn [base64_chunks app base64_decode_chars]. rewrite E3, V0, V1, V2, V3.
      rewrite IH by (cbn [length] in Hlen; lia).
      rewrite Ha, (Z_to_byte_mod (_ / 256)), Hb, (Z_to_byte_mod (_ + _ mod 64)), Hc,
        !Z_to_byte_to_Z.
      reflexivity.
Qed.

Lemma base64_roundtrip : forall bs, base64_decode (base64_encode bs) = Some bs.
Proof.
  intros bs. unfold base64_decode, base64_encode. rewrite list_ascii_of_string_of_list_ascii.
  apply base64_decode_chunks. lia.
Qed.

(** X19: with a relay configured, [submit_bundle] posts exactly one
    request, to the relay URL, whatever the relay answers; its body is
    [{"bundle": body}] where [body] decodes (padded standard base64) back
    to the bundle's bytes. *)
Theorem submit_bundle_body_roundtrip : forall post url bundle,
  exists req body,
    snd (submit_bundle post (mkRelayClient (Some url)) bundle) = [req] /\
    req_url req = url /\
    json_get "bundle" (req_body req) = Some (JStr body) /\
    base64_decode body = Some bundle.
Proof.
  intros post url bundle. unfold submit_bundle. cbn [relay_url].
  set (req := mkRequest url (JObj [("bundle"%string, JStr (base64_encode bundle))])).
  exists req, (base64_encode bundle).
  split; [destruct (post req); reflexivity|].
  split; [reflexivity|]. split; [reflexivity|]. apply base64_roundtrip.
Qed.

(* ------------------------------------------------------------------ *)
(** ** Concrete secp256k1 evaluations *)

(** C2: a remote answering with [r || s], [r = N/4 + 1] and
    [s = 2 r > N/2], over the digest [N - r] (a signature under [G + 2R])
    makes [RemoteBasedSigner] sign the EIP-1559 transaction
    [ks_tx] with [s > N/2], whether the response is the 64-byte [r || s]
    or the 65-byte [r || s || 27]: neither parses as DER, and neither form
    goes through a low-[s] step. *)
Lemma remote_signer_high_s :
  half_n < 2 * r_high_s < curve_n /\
  der_to_ethers_signature sig64_high_s sighash_high_s None = Err "invalid der signature" /\
  der_to_ethers_signature sig65_high_s sighash_high_s None = Err "invalid der signature" /\
  sign_typed_transaction_remote remote_high_s64 ks_tx sighash_high_s
    = Some (Ok (ks_tx, mkSig r_high_s (2 * r_high_s) 0)) /\
  sign_typed_transaction_remote remote_high_s ks_tx sighash_high_s
    = Some (Ok (ks_tx, mkSig r_high_s (2 * r_high_s) 0)).
Proof. vm_compute. repeat split. Qed.

(** C3: two DER signatures of the 32-byte digest [N - 7], each given with
    the address of its signer.  For [(7, 7)] under [key_rid2] the
    Reconstructor returns [v = 29], outside [{27, 28}].  [(7, N - 7)] under
    [key_hs2] has [s > N/2] and recovers nothing with ids 0 and 1; the
    Reconstructor returns [(7, 7)] with [v = 27], and that signature
    recovers nothing with id 0, the id [v = 27] stands for. *)
Lemma der_reconstructor_v_slips :
  parse_der der_rid2 = Some (7, 7) /\ length digest_rid2 = 32%nat /\
  der_to_ethers_signature der_rid2 digest_rid2 (Some (address_of key_rid2)) = Ok (mkSig 7 7 29) /\
  parse_der der_hs2 = Some (7, curve_n - 7) /\ half_n < curve_n - 7 /\
  Secp256k1.recover (be_to_Z digest_rid2) 7 (curve_n - 7) 0 = None /\
  Secp256k1.recover (be_to_Z digest_rid2) 7 (curve_n - 7) 1 = None /\
  der_to_ethers_signature der_hs2 digest_rid2 (Some (address_of key_hs2)) = Ok (mkSig 7 7 27) /\
  Secp256k1.recover (be_to_Z digest_rid2) 7 7 0 = None.
Proof. vm_compute. repeat split. Qed.

Lemma sign_typed_transaction_remote_v_witness :
  (forall sig_bytes, (fun _ : list byte => Ok der_rid2 : result (list byte)) digest_rid2
                     = Ok sig_bytes -> length sig_bytes <> 65%nat) /\
  0 <= chain_id_or_one (tx_chain_id ks_tx) /\
  remote_signature (fun _ => Ok der_rid2) ks_tx digest_rid2 = Ok (mkSig 7 7 2) /\
  sign_typed_transaction_remote (fun _ => Ok der_rid2) ks_tx digest_rid2 = None.
Proof.
  assert (Hl : forall sig_bytes, (fun _ : list byte => Ok der_rid2 : result (list byte))
                 digest_rid2 = Ok sig_bytes -> length sig_bytes <> 65%nat)
    by (intros bs E; injection E as <-; vm_compute; discriminate).
  assert (Hc : 0 <= chain_id_or_one (tx_chain_id ks_tx)) by (cbn; lia).
  assert (H : remote_signature (fun _ => Ok der_rid2) ks_tx digest_rid2 = Ok (mkSig 7 7 2))
    by (vm_compute; reflexivity).
  split; [exact Hl|]. split; [exact Hc|]. split; [exact H|].
  destruct (sign_typed_transaction_remote_v (fun _ => Ok der_rid2) ks_tx digest_rid2 Hl Hc)
    as [_ H2].
  destruct (H2 _ H) as [_ [_ H3]]. apply H3. cbn [sig_v]. lia.
Defined.
